(** * Primate workbench: the REST request builder and the view-frame state

    A shallow embedding of the two shared services of the workbench,
    [RestProvider] / [configure] (REST client factory) and
    [ViewFrameProvider] (services/view-frame-provider.js), with the
    properties their specification states about them.

    JavaScript values are embedded as the JSON-like fragment of the language:
    [undefined], [null], booleans, numbers, strings, arrays, and plain
    objects given by their own enumerable properties in enumeration order.
    A number is a binary64 float, the primitive [float] of the prover, with
    its addition and with [Number::toString] written out.  A string is held
    as the bytes of its UTF-8 encoding, the way a source file or a JSON
    document holds it; its code units, which [length], [btoa] and the URL
    serializer work on, are read off these bytes.  Functions, symbols,
    accessors and the members inherited from [Object.prototype] (a property
    named [constructor] or [toString], say) are outside this fragment. *)

From Stdlib Require Floats.
From Stdlib Require Import ZArith List String Ascii Bool Lia DecimalString.
Import ListNotations.

Local Open Scope string_scope.
Set Warnings "-register-all".

(** ** JavaScript values *)

Module JS.

(** *** Numbers *)

Definition number : Type := PrimFloat.float.

Definition NaN : number := PrimFloat.nan.

(** The number an integer literal denotes: the float nearest to it. *)
Definition Int (z : Z) : number :=
  FloatOps.SF2Prim
    (SpecFloat.binary_normalize FloatOps.prec FloatOps.emax z 0 false).

(** The integer a number holds, for a number that is the [Int] of one.
    (The zero with a sign is kept apart from it.) *)
Definition integer (x : number) : option Z :=
  let held :=
    match FloatOps.Prim2SF x with
    | SpecFloat.S754_zero _ => Some 0%Z
    | SpecFloat.S754_finite s m e =>
        let magnitude :=
          if (0 <=? e)%Z then Some (Z.pos m * 2 ^ e)%Z
          else if (Z.pos m mod 2 ^ (- e) =? 0)%Z
               then Some (Z.pos m / 2 ^ (- e))%Z
               else None in
        if s then option_map Z.opp magnitude else magnitude
    | _ => None
    end in
  match held with
  | Some z => if PrimFloat.Leibniz.eqb (Int z) x then Some z else None
  | None => None
  end.

Definition decimal (z : Z) : string :=
  NilZero.string_of_uint (N.to_uint (Z.to_N z)).

Definition ceiling (a b : Z) : Z := (- ((- a) / b))%Z.

(** The decimals [s * 10^p] that round to the float [m * 2^e], a float as
    [Prim2SF] gives it: those between the midpoints to its two neighbours,
    the midpoints themselves when [m] is even.  Of these the one nearest to
    the float, the even one of two that are as near. *)
Definition shortest_at (m : positive) (e p : Z) : option Z :=
  (let value := 4 * Z.pos m in
   let low :=
     if (Z.pos m =? 2 ^ 52) && (-1074 <? e) then value - 1 else value - 2 in
   let high := value + 2 in
   let scaled q := q * 2 ^ Z.max (e - 2) 0 * 10 ^ Z.max (- p) 0 in
   let unit := 2 ^ Z.max (2 - e) 0 * 10 ^ Z.max p 0 in
   let closed := Z.even (Z.pos m) in
   let least :=
     Z.max 1 (if closed then ceiling (scaled low) unit
              else scaled low / unit + 1) in
   let greatest :=
     if closed then scaled high / unit
     else ceiling (scaled high) unit - 1 in
   if least <=? greatest then
     let below := scaled value / unit in
     let rest := scaled value mod unit in
     let nearest :=
       if 2 * rest <? unit then below
       else if unit <? 2 * rest then below + 1
       else if Z.even below then below else below + 1 in
     Some (Z.min (Z.max nearest least) greatest)
   else None)%Z.

(** The digits [s] and the power [p] of the shortest decimal that rounds
    to the float: the search goes down from a power of ten above it and
    stops at the first power that has such a decimal, within twenty steps. *)
Fixpoint shortest (fuel : nat) (m : positive) (e p : Z) : Z * Z :=
  match fuel with
  | O => (Z.pos m, e)
  | S fuel =>
      match shortest_at m e p with
      | Some s => (s, p)
      | None => shortest fuel m e (p - 1)
      end
  end.

Fixpoint zeros (n : nat) : string :=
  match n with
  | O => ""
  | S n => String "0" (zeros n)
  end.

Definition exponent (n : Z) : string :=
  ((if 0 <=? n then "+" else "-") ++ decimal (Z.abs n))%Z.

(** The digits laid out: as an integer up to 21 places, with a point, or
    with an exponent. *)
Definition notation (s p : Z) : string :=
  let digits := decimal s in
  let k := String.length digits in
  let n := (p + Z.of_nat k)%Z in
  if ((Z.of_nat k <=? n) && (n <=? 21))%Z then
    digits ++ zeros (Z.to_nat n - k)
  else if ((0 <? n) && (n <=? 21))%Z then
    substring 0 (Z.to_nat n) digits ++ "." ++
    substring (Z.to_nat n) (k - Z.to_nat n) digits
  else if ((-6 <? n) && (n <=? 0))%Z then
    "0." ++ zeros (Z.to_nat (- n)) ++ digits
  else if (k =? 1)%nat then digits ++ "e" ++ exponent (n - 1)
  else substring 0 1 digits ++ "." ++ substring 1 (k - 1) digits ++
       "e" ++ exponent (n - 1).

Definition finite_to_string (m : positive) (e : Z) : string :=
  let start := ((Z.log2 (Z.pos m) + 1 + e) * 30103 / 100000 + 2)%Z in
  let (s, p) := shortest 64 m e start in
  notation s p.

(** Number::toString *)
Definition NumberToString (x : number) : string :=
  match FloatOps.Prim2SF x with
  | SpecFloat.S754_nan => "NaN"
  | SpecFloat.S754_zero _ => "0"
  | SpecFloat.S754_infinity false => "Infinity"
  | SpecFloat.S754_infinity true => "-Infinity"
  | SpecFloat.S754_finite false m e => finite_to_string m e
  | SpecFloat.S754_finite true m e => "-" ++ finite_to_string m e
  end.

Arguments Int : simpl never.
Arguments integer : simpl never.
Arguments NumberToString : simpl never.

(** *** Strings *)

Definition bytes (s : string) : list N :=
  map N_of_ascii (list_ascii_of_string s).

Definition text (bs : list N) : string :=
  string_of_list_ascii (map ascii_of_N bs).

Definition continuation (b : N) : bool := ((128 <=? b) && (b <=? 191))%N.

(** The code points a UTF-8 decoder reads: a byte that starts no
    well-formed sequence reads as U+FFFD.  A surrogate that stands alone in
    a string is held in three bytes like the code points around it. *)
Fixpoint code_points (bs : list N) : list N :=
  match bs with
  | [] => []
  | b0 :: r0 =>
      if (b0 <? 128)%N then b0 :: code_points r0
      else
        match r0 with
        | [] => [65533%N]
        | b1 :: r1 =>
            if ((194 <=? b0) && (b0 <=? 223) && continuation b1)%N
            then ((b0 - 192) * 64 + (b1 - 128))%N :: code_points r1
            else
              match r1 with
              | [] => 65533%N :: code_points r0
              | b2 :: r2 =>
                  if ((224 <=? b0) && (b0 <=? 239) && continuation b1
                      && continuation b2
                      && (negb (b0 =? 224) || (160 <=? b1)))%N
                  then ((b0 - 224) * 4096 + (b1 - 128) * 64
                        + (b2 - 128))%N :: code_points r2
                  else
                    match r2 with
                    | [] => 65533%N :: code_points r0
                    | b3 :: r3 =>
                        if ((240 <=? b0) && (b0 <=? 244) && continuation b1
                            && continuation b2 && continuation b3
                            && (negb (b0 =? 240) || (144 <=? b1))
                            && (negb (b0 =? 244) || (b1 <=? 143)))%N
                        then ((b0 - 240) * 262144 + (b1 - 128) * 4096
                              + (b2 - 128) * 64 + (b3 - 128))%N
                             :: code_points r3
                        else 65533%N :: code_points r0
                    end
              end
        end
  end.

(** UTF-16: a code point above U+FFFF is a pair of surrogates. *)
Definition utf16 (c : N) : list N :=
  if (c <? 65536)%N then [c]
  else [55296 + (c - 65536) / 1024; 56320 + (c - 65536) mod 1024]%N.

(** The code units of a string. *)
Definition code_units (s : string) : list N :=
  flat_map utf16 (code_points (bytes s)).

Definition high_surrogate (u : N) : bool := ((55296 <=? u) && (u <=? 56319))%N.
Definition low_surrogate (u : N) : bool := ((56320 <=? u) && (u <=? 57343))%N.

(** The scalar values of a string: surrogates are paired, one that stands
    alone becomes U+FFFD. *)
Fixpoint scalars (units : list N) : list N :=
  match units with
  | [] => []
  | u :: rest =>
      if high_surrogate u then
        match rest with
        | v :: rest' =>
            if low_surrogate v
            then (65536 + (u - 55296) * 1024 + (v - 56320))%N :: scalars rest'
            else 65533%N :: scalars rest
        | [] => [65533%N]
        end
      else if low_surrogate u then 65533%N :: scalars rest
      else u :: scalars rest
  end.

(** The UTF-8 encoding of one code point. *)
Definition utf8 (c : N) : list N :=
  if (c <? 128)%N then [c]
  else if (c <? 2048)%N then [192 + c / 64; 128 + c mod 64]%N
  else if (c <? 65536)%N
       then [224 + c / 4096; 128 + c / 64 mod 64; 128 + c mod 64]%N
       else [240 + c / 262144; 128 + c / 4096 mod 64;
             128 + c / 64 mod 64; 128 + c mod 64]%N.

(** *** Values *)

Inductive value : Type :=
| VUndefined
| VNull
| VBool (b : bool)
| VNum (n : number)
| VStr (s : string)
| VArr (elems : list value)
| VObj (props : list (string * value)).

(** An object literal: own properties in enumeration order. *)
Definition object := list (string * value).

Inductive exn : Type :=
| TypeError (msg : string)
| InvalidCharacterError (msg : string).

(** The completion of an expression or call: a value, or a thrown exception. *)
Inductive completion (A : Type) : Type :=
| Normal (a : A)
| Throw (e : exn).
Arguments Normal {A} a.
Arguments Throw {A} e.

(** [typeof v] *)
Definition typeof (v : value) : string :=
  match v with
  | VUndefined => "undefined"
  | VNull => "object"
  | VBool _ => "boolean"
  | VNum _ => "number"
  | VStr _ => "string"
  | VArr _ => "object"
  | VObj _ => "object"
  end.

(** [typeof v === t] *)
Definition typeof_is (v : value) (t : string) : bool :=
  String.eqb (typeof v) t.

(** ToBoolean *)
Definition ToBoolean (v : value) : bool :=
  match v with
  | VUndefined | VNull => false
  | VBool b => b
  | VNum x => negb (PrimFloat.eqb x PrimFloat.zero || PrimFloat.is_nan x)
  | VStr s => negb (String.eqb s "")
  | VArr _ | VObj _ => true
  end.

(** [a || b] *)
Definition or (a b : value) : value := if ToBoolean a then a else b.

Fixpoint join (sep : string) (l : list string) : string :=
  match l with
  | [] => ""
  | [s] => s
  | s :: rest => s ++ sep ++ join sep rest
  end.

(** ToString.  Arrays convert with [Array.prototype.join], objects with
    [Object.prototype.toString]. *)
Fixpoint ToString (v : value) : string :=
  match v with
  | VUndefined => "undefined"
  | VNull => "null"
  | VBool true => "true"
  | VBool false => "false"
  | VNum n => NumberToString n
  | VStr s => s
  | VArr elems =>
      join "," (map (fun e => match e with
                              | VUndefined | VNull => ""
                              | _ => ToString e
                              end) elems)
  | VObj _ => "[object Object]"
  end.

(** ToPrimitive: arrays and objects become their string conversion, by
    [Array.prototype.toString] and [Object.prototype.toString]. *)
Definition ToPrimitive (v : value) : value :=
  match v with
  | VArr _ | VObj _ => VStr (ToString v)
  | _ => v
  end.

(** ToNumber on the primitives that are not strings. *)
Definition ToNumber_prim (v : value) : number :=
  match v with
  | VNull => Int 0
  | VBool true => Int 1
  | VBool false => Int 0
  | VNum n => n
  | _ => NaN
  end.

Definition number_add (a b : number) : number := PrimFloat.add a b.

(** [a + b]: concatenation as soon as one operand is a string once made
    primitive, numeric addition otherwise. *)
Definition add (a b : value) : value :=
  match ToPrimitive a, ToPrimitive b with
  | VStr s, pb => VStr (s ++ ToString pb)
  | pa, VStr s => VStr (ToString pa ++ s)
  | pa, pb => VNum (number_add (ToNumber_prim pa) (ToNumber_prim pb))
  end.

(** Own property lookup in a property list. *)
Fixpoint lookup (props : object) (key : string) : option value :=
  match props with
  | [] => None
  | (k, v) :: rest => if String.eqb k key then Some v else lookup rest key
  end.

(** [o.key] on an object literal: [undefined] when the property is absent. *)
Definition get (o : object) (key : string) : value :=
  match lookup o key with
  | Some v => v
  | None => VUndefined
  end.

(** [o[key] = v]: an existing property keeps its place, a new one goes last
    (a new index-like name would be enumerated before the others; nothing
    here depends on the place of a property that was set). *)
Fixpoint set (o : object) (key : string) (v : value) : object :=
  match o with
  | [] => [(key, v)]
  | (k, w) :: rest =>
      if String.eqb k key then (k, v) :: rest else (k, w) :: set rest key v
  end.

(** [delete o[key]] *)
Definition delete (o : object) (key : string) : object :=
  filter (fun p => negb (String.eqb (fst p) key)) o.

Definition keys (o : object) : list string := map fst o.

(** The values of the fragment, on which [ToString] and [ToPrimitive] call
    the methods of the prototypes and nothing else: an object with a
    property named [toString] of its own, which is no function here and
    makes the conversion throw, is not among them, nor is an array that
    holds one. *)
Fixpoint convertible (v : value) : bool :=
  match v with
  | VArr elems => forallb convertible elems
  | VObj props => negb (existsb (String.eqb "toString") (keys props))
  | _ => true
  end.

(** [v === null] *)
Definition is_null (v : value) : bool :=
  match v with
  | VNull => true
  | _ => false
  end.

Definition index_string (i : nat) : string :=
  NilZero.string_of_uint (Nat.to_uint i).

(** The own properties of an array: its indices. *)
Definition indexed (elems : list value) : object :=
  combine (map index_string (seq 0 (List.length elems))) elems.

(** The characters of a string: its code units, each a string. *)
Definition chars (s : string) : list value :=
  map (fun u => VStr (text (utf8 u))) (code_units s).

(** The own enumerable properties of a value: those of an object, the
    indices of an array or of a string, none for the other primitives. *)
Definition props_of (v : value) : object :=
  match v with
  | VObj props => props
  | VArr elems => indexed elems
  | VStr s => indexed (chars s)
  | _ => []
  end.

(** [v[key]]: throws on [undefined] and [null]; [length] of arrays and
    strings is their own, not enumerable, property. *)
Definition get_prop (v : value) (key : string) : completion value :=
  match v with
  | VUndefined | VNull =>
      Throw (TypeError "Cannot read properties of undefined or null")
  | VArr elems =>
      if String.eqb key "length"
      then Normal (VNum (Int (Z.of_nat (List.length elems))))
      else Normal (get (indexed elems) key)
  | VStr s =>
      if String.eqb key "length"
      then Normal (VNum (Int (Z.of_nat (List.length (code_units s)))))
      else Normal (get (indexed (chars s)) key)
  | _ => Normal (get (props_of v) key)
  end.

(** [Object.keys(v)]: throws on [null] and [undefined]. *)
Definition Object_keys (v : value) : completion (list string) :=
  match v with
  | VUndefined | VNull =>
      Throw (TypeError "Cannot convert undefined or null to object")
  | _ => Normal (keys (props_of v))
  end.

(** The property names visited by [for (let k in v)]: none for [null] and
    [undefined]. *)
Definition for_in (v : value) : list string := keys (props_of v).

Definition bind {A B : Type} (c : completion A) (k : A -> completion B)
  : completion B :=
  match c with
  | Normal a => k a
  | Throw e => Throw e
  end.

(** [xs.forEach(body)] threading an accumulator: stops at the first throw. *)
Fixpoint forEach {A S : Type} (xs : list A) (body : S -> A -> completion S)
  (s : S) : completion S :=
  match xs with
  | [] => Normal s
  | x :: rest => bind (body s x) (forEach rest body)
  end.

End JS.
Import JS.

Notation "x <- c ;; k" := (JS.bind c (fun x => k))
  (at level 61, c at next level, right associativity).

(** ** Web platform functions used by the REST provider *)

Module Web.

Definition hex_digit (n : N) : ascii :=
  ascii_of_N (if (n <? 10)%N then 48 + n else 55 + n)%N.

(** A byte as [%XX], upper-case hexadecimal. *)
Definition percent_byte (b : N) : string :=
  String "%" (String (hex_digit (b / 16)) (String (hex_digit (b mod 16)) "")).

(** Bytes the application/x-www-form-urlencoded serializer leaves as they
    are: [*], [-], [.], [_], digits and ASCII letters. *)
Definition urlencoded_safe (b : N) : bool :=
  ((b =? 42) || (b =? 45) || (b =? 46) || (b =? 95)
   || ((48 <=? b) && (b <=? 57))
   || ((65 <=? b) && (b <=? 90))
   || ((97 <=? b) && (b <=? 122)))%N.

Definition urlencoded_byte (b : N) : string :=
  if (b =? 32)%N then "+"
  else if urlencoded_safe b then String (ascii_of_N b) ""
  else percent_byte b.

(** The urlencoded byte serializer applied to the UTF-8 encoding of the
    scalar values of [s]. *)
Definition urlencode (s : string) : string :=
  concat ""
    (map urlencoded_byte (flat_map utf8 (scalars (code_units s)))).

(** [URLSearchParams]: an ordered list of name-value pairs. *)
Definition URLSearchParams := list (string * string).

(** [params.append(name, value)]: both converted to strings. *)
Definition append (params : URLSearchParams) (name : string) (v : value)
  : URLSearchParams :=
  (params ++ [(name, ToString v)])%list.

Definition serialize_pair (p : string * string) : string :=
  urlencode (fst p) ++ "=" ++ urlencode (snd p).

(** [params.toString()] *)
Definition toString (params : URLSearchParams) : string :=
  join "&" (map serialize_pair params).

Definition base64_digit (n : N) : ascii :=
  ascii_of_N (if (n <? 26) then 65 + n
              else if (n <? 52) then 71 + n
              else if (n <? 62) then n - 4
              else if (n =? 62) then 43 else 47)%N.

Fixpoint base64 (bytes : list N) : string :=
  match bytes with
  | [] => ""
  | [a] =>
      String (base64_digit (a / 4))
        (String (base64_digit (a mod 4 * 16)) "==")
  | [a; b] =>
      String (base64_digit (a / 4))
        (String (base64_digit (a mod 4 * 16 + b / 16))
           (String (base64_digit (b mod 16 * 4)) "="))
  | a :: b :: c :: rest =>
      String (base64_digit (a / 4))
        (String (base64_digit (a mod 4 * 16 + b / 16))
           (String (base64_digit (b mod 16 * 4 + c / 64))
              (String (base64_digit (c mod 64)) (base64 rest))))
  end%N.

(** The strings [btoa] encodes: no code unit above 255. *)
Definition latin1 (s : string) : bool :=
  forallb (fun u => (u <=? 255)%N) (code_units s).

(** The [DOMException] of [btoa]. *)
Definition invalid_character : exn :=
  InvalidCharacterError "The string to be encoded contains invalid characters".

(** [btoa(v)]: the argument converted to a string, every code unit taken as
    one byte; the call throws when a code unit is above 255. *)
Definition btoa (v : value) : completion string :=
  if latin1 (ToString v)
  then Normal (base64 (code_units (ToString v)))
  else Throw invalid_character.

End Web.

(** ** Helpers of lib/core-utils.js and lib/utility.js *)

Module CoreUtils.

(** Modelled from the spec: [isDefined] of lib/utility.js and
    lib/core-utils.js, which are not part of the sources at hand.  The
    initialisers ignore a key that is not a recognised field and overwrite
    every recognised one, [authorization] (initially [null]) and [host]
    (initially the empty string) included: a value is defined unless it is
    [undefined]. *)
Definition isDefined (v : value) : bool :=
  match v with
  | VUndefined => false
  | _ => true
  end.

(** Modelled from the spec: [isNil] of lib/core-utils.js, applied to the
    held timer handle; it tells that no reset timer is pending, the handle
    being [null]. *)
Definition isNil {A : Type} (handle : option A) : bool :=
  match handle with
  | None => true
  | Some _ => false
  end.

End CoreUtils.

(** ** The REST provider *)

Module Rest.

Import CoreUtils.

(** System-wide HTTP configuration. *)
Record RestConfig : Type := {
  host : value;
  authorization : value;
  accept : value;
  contentType : value
}.

Definition REST_CONFIG : RestConfig := {|
  host := VStr "";
  authorization := VNull;
  accept := VStr "application/json";
  contentType := VStr "application/json"
|}.

(** [REST_CONFIG[name]] *)
Definition field (cfg : RestConfig) (name : string) : value :=
  if String.eqb name "host" then host cfg
  else if String.eqb name "authorization" then authorization cfg
  else if String.eqb name "accept" then accept cfg
  else if String.eqb name "contentType" then contentType cfg
  else VUndefined.

(** [REST_CONFIG[name] = v], for the names the store has. *)
Definition assign (cfg : RestConfig) (name : string) (v : value)
  : RestConfig :=
  if String.eqb name "host" then
    {| host := v; authorization := authorization cfg;
       accept := accept cfg; contentType := contentType cfg |}
  else if String.eqb name "authorization" then
    {| host := host cfg; authorization := v;
       accept := accept cfg; contentType := contentType cfg |}
  else if String.eqb name "accept" then
    {| host := host cfg; authorization := authorization cfg;
       accept := v; contentType := contentType cfg |}
  else if String.eqb name "contentType" then
    {| host := host cfg; authorization := authorization cfg;
       accept := accept cfg; contentType := v |}
  else cfg.

(** [request.headers[item] = v] *)
Definition set_header (request : object) (item : string) (v : value)
  : object :=
  set request "headers" (VObj (set (props_of (get request "headers")) item v)).

(** The request descriptor is the object [configure] builds: properties
    [method], [url], [headers], [withCredentials] and, when set, [data]. *)
Definition configure (cfg : RestConfig) (options : object)
  : completion object :=
  let request :=
    [ ("method", get options "method");
      ("url", JS.or (get options "url")
                (add (host cfg) (get options "resource")));
      ("headers", VObj []);
      ("withCredentials", VBool false) ] in
  let request :=
    if typeof_is (get options "url") "string"
    then set request "url" (get options "url")
    else set request "url"
           (add (host cfg)
              (if typeof_is (get options "endpoint") "string"
               then get options "endpoint"
               else get options "resource")) in
  let request :=
    if typeof_is (get options "data") "object"
    then set request "data" (get options "data")
    else request in
  let request :=
    if typeof_is (authorization cfg) "string"
    then set_header (set request "withCredentials" (VBool true))
           "Authorization" (authorization cfg)
    else request in
  let request :=
    if typeof_is (accept cfg) "string"
    then set_header request "Accept" (accept cfg)
    else request in
  let request :=
    if typeof_is (contentType cfg) "string"
    then set_header request "Content-Type" (contentType cfg)
    else request in
  request <-
    (if typeof_is (get options "headers") "object"
     then
       items <- Object_keys (get options "headers") ;;
       forEach items
         (fun request item =>
            v <- get_prop (get options "headers") item ;;
            Normal (set_header request item v))
         request
     else Normal request) ;;
  request <-
    (if typeof_is (get options "query") "object"
     then
       query <-
         forEach (for_in (get options "query"))
           (fun query param =>
              v <- get_prop (get options "query") param ;;
              Normal (if negb (is_null v)
                      then Web.append query param v
                      else query))
           ([] : Web.URLSearchParams) ;;
       Normal (set request "url"
                 (add (VStr (ToString (get request "url") ++ "?"))
                    (VStr (Web.toString query))))
     else Normal request) ;;
  header_names <- Object_keys (get request "headers") ;;
  Normal (if (List.length header_names <=? 0)%nat
          then delete request "headers"
          else request).

(** [configure(options)] for any argument, as [request] passes it on:
    reading [options.method] throws on [undefined] and [null]; any other
    value is read through its properties. *)
Definition configure_argument (cfg : RestConfig) (options : value)
  : completion object :=
  _ <- get_prop options "method" ;;
  configure cfg (props_of options).

(** How a call on the store completes, and the store it leaves: a throw
    keeps what was assigned before it. *)
Definition outcome : Type := completion unit * RestConfig.

(** [RestProvider.initialize]: one turn of the loop over the option names. *)
Definition initialize_step (options : object) (state : outcome)
  (name : string) : outcome :=
  match fst state with
  | Throw _ => state
  | Normal _ =>
      let cfg := snd state in
      if negb (isDefined (field cfg name)) then state
      else if String.eqb name "authorization" then
        match Web.btoa (get options name) with
        | Normal text =>
            (Normal tt, assign cfg name (add (VStr "Basic ") (VStr text)))
        | Throw e => (Throw e, cfg)
        end
      else (Normal tt, assign cfg name (get options name))
  end.

Definition initialize (options : object) (cfg : RestConfig) : outcome :=
  fold_left (initialize_step options) (keys options) (Normal tt, cfg).

Definition setHost (h : value) (cfg : RestConfig) : RestConfig :=
  assign cfg "host" h.

Definition setBasicAuth (username password : value) (cfg : RestConfig)
  : outcome :=
  match Web.btoa (add (add username (VStr ":")) (JS.or password (VStr "")))
  with
  | Normal text =>
      (Normal tt, assign cfg "authorization" (add (VStr "Basic ") (VStr text)))
  | Throw e => (Throw e, cfg)
  end.

Definition setAcceptType (type : value) (cfg : RestConfig) : RestConfig :=
  assign cfg "accept" type.

Definition setContentType (type : value) (cfg : RestConfig) : RestConfig :=
  assign cfg "contentType" type.

(** The calls through which the provider and the factory change the store;
    a call that throws leaves the store it had reached. *)
Inductive call : Type :=
| Initialize (options : object)
| SetHost (h : value)
| SetBasicAuth (username password : value)
| SetAcceptType (type : value)
| SetContentType (type : value).

Definition perform (cfg : RestConfig) (c : call) : RestConfig :=
  match c with
  | Initialize options => snd (initialize options cfg)
  | SetHost h => setHost h cfg
  | SetBasicAuth username password =>
      snd (setBasicAuth username password cfg)
  | SetAcceptType type => setAcceptType type cfg
  | SetContentType type => setContentType type cfg
  end.

Definition run (calls : list call) (cfg : RestConfig) : RestConfig :=
  fold_left perform calls cfg.

(** *** Vocabulary of the properties *)

(** [v[key]] read as a value, for a [v] that has properties. *)
Definition own (v : value) (key : string) : value :=
  match get_prop v key with
  | Normal x => x
  | Throw _ => VUndefined
  end.

(** The URL before any query string. *)
Definition resolved_url (cfg : RestConfig) (options : object) : value :=
  if typeof_is (get options "url") "string"
  then get options "url"
  else add (host cfg)
         (if typeof_is (get options "endpoint") "string"
          then get options "endpoint"
          else get options "resource").

(** The headers the store gives. *)
Definition store_headers (cfg : RestConfig) : object :=
  let hs :=
    if typeof_is (authorization cfg) "string"
    then [("Authorization", authorization cfg)] else [] in
  let hs :=
    if typeof_is (accept cfg) "string"
    then set hs "Accept" (accept cfg) else hs in
  if typeof_is (contentType cfg) "string"
  then set hs "Content-Type" (contentType cfg) else hs.

(** The headers once the caller's are applied. *)
Definition merged_headers (cfg : RestConfig) (supplied : value) : object :=
  if typeof_is supplied "object"
  then fold_left (fun hs item => set hs item (own supplied item))
         (keys (props_of supplied)) (store_headers cfg)
  else store_headers cfg.

(** The pairs appended to the [URLSearchParams]. *)
Definition query_params (query : value) : Web.URLSearchParams :=
  map (fun param => (param, ToString (own query param)))
    (filter (fun param => negb (is_null (own query param))) (for_in query)).

Definition final_url (cfg : RestConfig) (options : object) : value :=
  if typeof_is (get options "query") "object"
  then VStr ((ToString (resolved_url cfg options) ++ "?") ++
             Web.toString (query_params (get options "query")))
  else resolved_url cfg options.

(** The object [configure] returns, property by property. *)
Definition descriptor (cfg : RestConfig) (options : object) : object :=
  (("method", get options "method") ::
   ("url", final_url cfg options) ::
   match merged_headers cfg (get options "headers") with
   | [] => []
   | hs => [("headers", VObj hs)]
   end ++
   ("withCredentials", VBool (typeof_is (authorization cfg) "string")) ::
   (if typeof_is (get options "data") "object"
    then [("data", get options "data")] else []))%list.

(** The request under construction. *)
Definition shape (m u : value) (hs : object) (c : bool) (d : object)
  : object :=
  (("method", m) :: ("url", u) :: ("headers", VObj hs) ::
   ("withCredentials", VBool c) :: d)%list.

(** [configure] up to the caller's headers, and from there on: the two
    halves the proofs go through. *)
Definition configure_store (cfg : RestConfig) (options : object) : object :=
  shape (get options "method") (resolved_url cfg options) (store_headers cfg)
    (typeof_is (authorization cfg) "string")
    (if typeof_is (get options "data") "object"
     then [("data", get options "data")] else []).

Definition configure_rest (options request : object) : completion object :=
  request <-
    (if typeof_is (get options "headers") "object"
     then
       items <- Object_keys (get options "headers") ;;
       forEach items
         (fun request item =>
            v <- get_prop (get options "headers") item ;;
            Normal (set_header request item v))
         request
     else Normal request) ;;
  request <-
    (if typeof_is (get options "query") "object"
     then
       query <-
         forEach (for_in (get options "query"))
           (fun query param =>
              v <- get_prop (get options "query") param ;;
              Normal (if negb (is_null v)
                      then Web.append query param v
                      else query))
           ([] : Web.URLSearchParams) ;;
       Normal (set request "url"
                 (add (VStr (ToString (get request "url") ++ "?"))
                    (VStr (Web.toString query))))
     else Normal request) ;;
  header_names <- Object_keys (get request "headers") ;;
  Normal (if (List.length header_names <=? 0)%nat
          then delete request "headers"
          else request).

(** The header [k] the descriptor is to carry: the caller's when there is
    one, otherwise the store's when its field is a string. *)
Definition expected_header (cfg : RestConfig) (supplied : object) (k : string)
  : option value :=
  match lookup supplied k with
  | Some v => Some v
  | None =>
      if String.eqb k "Authorization" then
        if typeof_is (authorization cfg) "string"
        then Some (authorization cfg) else None
      else if String.eqb k "Accept" then
        if typeof_is (accept cfg) "string" then Some (accept cfg) else None
      else if String.eqb k "Content-Type" then
        if typeof_is (contentType cfg) "string"
        then Some (contentType cfg) else None
      else None
  end.


(** The value [initialize] stores for the option [name], when it stores
    one. *)
Definition stored (options : object) (name : string) : value :=
  if String.eqb name "authorization"
  then VStr ("Basic " ++ Web.base64 (code_units (ToString (get options name))))
  else get options name.

(** The credential [initialize] is given is one [btoa] refuses, and the
    store has an authorization to overwrite. *)
Definition refused (options : object) (cfg : RestConfig) : bool :=
  existsb (String.eqb "authorization") (keys options)
  && isDefined (authorization cfg)
  && negb (Web.latin1 (ToString (get options "authorization"))).

(** The option names [initialize] gets through when the credential is
    refused: those before [authorization]. *)
Fixpoint before_authorization (names : list string) : list string :=
  match names with
  | [] => []
  | name :: rest =>
      if String.eqb name "authorization" then []
      else name :: before_authorization rest
  end.

(** One turn of the loop of [initialize] that completes. *)
Definition stored_step (options : object) (cfg : RestConfig) (name : string)
  : RestConfig :=
  if negb (isDefined (field cfg name)) then cfg
  else assign cfg name (stored options name).




End Rest.

(** ** The view-frame provider *)

Module ViewFrame.

Import CoreUtils.

(** The view frame state.  The fields the factory computes with carry the
    type it computes at: the two stacks are arrays, the loader width and step
    are numbers, taken in the integers (the number is the [Int] of them).
    The other fields are only stored and hold any value. *)
Record FrameState : Type := {
  sessionTheme : value;
  frameTitle : value;
  routeNext : value;
  breadcrumbs : list value;
  serverHost : value;
  actionButtons : list value;
  loaderWidth : Z;
  loaderStep : Z;
  loaderUnit : value
}.

Definition frameState : FrameState := {|
  sessionTheme := VStr "#FFFFFF";
  frameTitle := VStr "";
  routeNext := VStr "";
  breadcrumbs := [];
  serverHost := VStr "";
  actionButtons := [];
  loaderWidth := 0;
  loaderStep := 50;
  loaderUnit := VStr "0vw"
|}.

Definition handle := nat.

Record CacheMap : Type := {
  loaderTimeout : option handle
}.

Definition cacheMap : CacheMap := {| loaderTimeout := None |}.

(** What the module's functions act on: the two module-level objects, and
    the timers of the host with its clock.  A pending timer is its handle and
    the time it is due at; [loaderTimeoutCallback] is the only callback ever
    scheduled. *)
Record World : Type := {
  frame : FrameState;
  cache : CacheMap;
  timers : list (handle * N);
  now : N;
  nextHandle : handle
}.

Definition start : World := {|
  frame := frameState;
  cache := cacheMap;
  timers := [];
  now := 0;
  nextHandle := 1
|}.

Definition with_frame (w : World) (fs : FrameState) : World :=
  {| frame := fs; cache := cache w; timers := timers w;
     now := now w; nextHandle := nextHandle w |}.

Definition with_cache (w : World) (c : CacheMap) : World :=
  {| frame := frame w; cache := c; timers := timers w;
     now := now w; nextHandle := nextHandle w |}.

Definition with_sessionTheme (fs : FrameState) (v : value) : FrameState :=
  {| sessionTheme := v; frameTitle := frameTitle fs;
     routeNext := routeNext fs; breadcrumbs := breadcrumbs fs;
     serverHost := serverHost fs; actionButtons := actionButtons fs;
     loaderWidth := loaderWidth fs; loaderStep := loaderStep fs;
     loaderUnit := loaderUnit fs |}.

Definition with_frameTitle (fs : FrameState) (v : value) : FrameState :=
  {| sessionTheme := sessionTheme fs; frameTitle := v;
     routeNext := routeNext fs; breadcrumbs := breadcrumbs fs;
     serverHost := serverHost fs; actionButtons := actionButtons fs;
     loaderWidth := loaderWidth fs; loaderStep := loaderStep fs;
     loaderUnit := loaderUnit fs |}.

Definition with_routeNext (fs : FrameState) (v : value) : FrameState :=
  {| sessionTheme := sessionTheme fs; frameTitle := frameTitle fs;
     routeNext := v; breadcrumbs := breadcrumbs fs;
     serverHost := serverHost fs; actionButtons := actionButtons fs;
     loaderWidth := loaderWidth fs; loaderStep := loaderStep fs;
     loaderUnit := loaderUnit fs |}.

Definition with_breadcrumbs (fs : FrameState) (l : list value) : FrameState :=
  {| sessionTheme := sessionTheme fs; frameTitle := frameTitle fs;
     routeNext := routeNext fs; breadcrumbs := l;
     serverHost := serverHost fs; actionButtons := actionButtons fs;
     loaderWidth := loaderWidth fs; loaderStep := loaderStep fs;
     loaderUnit := loaderUnit fs |}.

Definition with_serverHost (fs : FrameState) (v : value) : FrameState :=
  {| sessionTheme := sessionTheme fs; frameTitle := frameTitle fs;
     routeNext := routeNext fs; breadcrumbs := breadcrumbs fs;
     serverHost := v; actionButtons := actionButtons fs;
     loaderWidth := loaderWidth fs; loaderStep := loaderStep fs;
     loaderUnit := loaderUnit fs |}.

Definition with_actionButtons (fs : FrameState) (l : list value) : FrameState :=
  {| sessionTheme := sessionTheme fs; frameTitle := frameTitle fs;
     routeNext := routeNext fs; breadcrumbs := breadcrumbs fs;
     serverHost := serverHost fs; actionButtons := l;
     loaderWidth := loaderWidth fs; loaderStep := loaderStep fs;
     loaderUnit := loaderUnit fs |}.

Definition with_loaderWidth (fs : FrameState) (z : Z) : FrameState :=
  {| sessionTheme := sessionTheme fs; frameTitle := frameTitle fs;
     routeNext := routeNext fs; breadcrumbs := breadcrumbs fs;
     serverHost := serverHost fs; actionButtons := actionButtons fs;
     loaderWidth := z; loaderStep := loaderStep fs;
     loaderUnit := loaderUnit fs |}.

Definition with_loaderStep (fs : FrameState) (z : Z) : FrameState :=
  {| sessionTheme := sessionTheme fs; frameTitle := frameTitle fs;
     routeNext := routeNext fs; breadcrumbs := breadcrumbs fs;
     serverHost := serverHost fs; actionButtons := actionButtons fs;
     loaderWidth := loaderWidth fs; loaderStep := z;
     loaderUnit := loaderUnit fs |}.

Definition with_loaderUnit (fs : FrameState) (v : value) : FrameState :=
  {| sessionTheme := sessionTheme fs; frameTitle := frameTitle fs;
     routeNext := routeNext fs; breadcrumbs := breadcrumbs fs;
     serverHost := serverHost fs; actionButtons := actionButtons fs;
     loaderWidth := loaderWidth fs; loaderStep := loaderStep fs;
     loaderUnit := v |}.

(** The template literal [`${width}vw`]. *)
Definition vw (width : Z) : value := VStr (NumberToString (Int width) ++ "vw").

(** *** Timers of the host *)

(** [setTimeout(loaderTimeoutCallback, delay, frameState)] *)
Definition setTimeout (delay : N) (w : World) : handle * World :=
  (nextHandle w,
   {| frame := frame w; cache := cache w;
      timers := (timers w ++ [(nextHandle w, (now w + delay)%N)])%list;
      now := now w; nextHandle := S (nextHandle w) |}).

Definition cancel (h : handle) (l : list (handle * N)) : list (handle * N) :=
  filter (fun t => negb (Nat.eqb (fst t) h)) l.

(** [clearTimeout(h)]: nothing to do for [null] or a timer that has fired. *)
Definition clearTimeout (h : option handle) (w : World) : World :=
  match h with
  | None => w
  | Some h =>
      {| frame := frame w; cache := cache w; timers := cancel h (timers w);
         now := now w; nextHandle := nextHandle w |}
  end.

Definition loaderTimeoutCallback (w : World) : World :=
  let state := with_loaderStep (frame w) 0 in
  let state := with_loaderWidth state 0 in
  let state := with_loaderUnit state (vw (loaderWidth state)) in
  let w := with_frame w state in
  let w := clearTimeout (loaderTimeout (cache w)) w in
  with_cache w {| loaderTimeout := None |}.

(** The host runs a timer that is due: it leaves the queue and its callback
    runs.  [None] when no timer is due. *)
Definition fire_next (w : World) : option World :=
  match find (fun t => (snd t <=? now w)%N) (timers w) with
  | Some t =>
      Some (loaderTimeoutCallback
              {| frame := frame w; cache := cache w;
                 timers := cancel (fst t) (timers w);
                 now := now w; nextHandle := nextHandle w |})
  | None => None
  end.

Fixpoint fire_due (fuel : nat) (w : World) : World :=
  match fuel with
  | O => w
  | S fuel =>
      match fire_next w with
      | Some w' => fire_due fuel w'
      | None => w
      end
  end.

(** [d] units of time pass with no call into the module: the clock advances
    and the timers due by then run.  A callback schedules no timer, so there
    are at most as many runs as timers pending. *)
Definition elapse (d : N) (w : World) : World :=
  let w := {| frame := frame w; cache := cache w; timers := timers w;
              now := (now w + d)%N; nextHandle := nextHandle w |} in
  fire_due (List.length (timers w)) w.

(** *** The factory: [buildViewFrameFactory] *)

(** A parameter left out of a call is [undefined] and takes its default. *)
Definition default (arg dflt : value) : value :=
  match arg with
  | VUndefined => dflt
  | _ => arg
  end.

Definition setSessionTheme (color : value) (w : World) : World :=
  with_frame w (with_sessionTheme (frame w) color).

Definition getSessionTheme (w : World) : value := sessionTheme (frame w).

Definition setTitle (title : value) (w : World) : World :=
  with_frame w (with_frameTitle (frame w) title).

Definition addAction (displayText redirect styles target endpoint : value)
  (w : World) : World :=
  let redirect := default redirect (VStr "!#/") in
  let styles := default styles (VStr "success create") in
  let target := default target (VStr "object") in
  let endpoint := default endpoint (VStr "!#/") in
  with_frame w
    (with_actionButtons (frame w)
       (actionButtons (frame w) ++
        [VObj [ ("styles", VStr ("btn " ++ ToString styles));
                ("displayText", displayText);
                ("redirect", redirect);
                ("target", target);
                ("endpoint", endpoint) ]])%list).

Definition getActions (w : World) : list value := actionButtons (frame w).

Definition clearActions (w : World) : World :=
  with_frame w (with_actionButtons (frame w) []).

Section Breadcrumbs.

(** [isEmpty] of lib/core-utils.js is not part of the sources at hand; the
    factory is taken over any such test. *)
Variable isEmpty : value -> bool.

Definition addBreadcrumb (redirect displayText : value) (w : World) : World :=
  let displayText := default displayText VNull in
  let displayText := if isEmpty displayText then redirect else displayText in
  let state :=
    with_breadcrumbs (frame w)
      (breadcrumbs (frame w) ++
       [VObj [("redirect", redirect); ("displayText", displayText)]])%list in
  let state :=
    with_routeNext state
      (if (2 <=? List.length (breadcrumbs state))%nat
       then redirect else VStr "") in
  with_frame w state.

End Breadcrumbs.

Definition clearBreadcrumbs (w : World) : World :=
  let state := with_breadcrumbs (frame w) [] in
  with_frame w (with_routeNext state (VStr "")).

Definition getBreadcrumbs (w : World) : list value := breadcrumbs (frame w).

Definition hasBreadcrumbs (w : World) : bool :=
  (1 <=? List.length (breadcrumbs (frame w)))%nat.

(** [array.pop()]: the last element, [undefined] on an empty array, and the
    array without it. *)
Definition pop (l : list value) : value * list value :=
  (last l VUndefined, removelast l).

(** [shouldPop === false] *)
Definition is_false (v : value) : bool :=
  match v with
  | VBool false => true
  | _ => false
  end.

(** The completion of the call and the world it leaves: a throw keeps what
    was changed before it. *)
Definition previousRoute (shouldPop : value) (w : World)
  : completion value * World :=
  let shouldPop := default shouldPop (VBool true) in
  if is_false shouldPop then (Normal (routeNext (frame w)), w)
  else if (List.length (breadcrumbs (frame w)) =? 0)%nat then
    let w := with_frame w (with_routeNext (frame w) (VStr "")) in
    (Normal (routeNext (frame w)), w)
  else
    let '(_, rest) := pop (breadcrumbs (frame w)) in
    let w := with_frame w (with_breadcrumbs (frame w) rest) in
    let '(entry, rest) := pop (breadcrumbs (frame w)) in
    let w := with_frame w (with_breadcrumbs (frame w) rest) in
    match get_prop entry "redirect" with
    | Normal redirect =>
        let w := with_frame w (with_routeNext (frame w) redirect) in
        (Normal (routeNext (frame w)), w)
    | Throw e => (Throw e, w)
    end.

(** [Math.ceil(a / b)] for integers [a] and a positive [b]: the quotient
    of two such doubles is rounded to an integer only when it is one. *)
Definition ceil_div (a b : Z) : Z := (- ((- a) / b))%Z.

Definition setLoaderSteps (steps : Z) (w : World) : World :=
  if ((loaderWidth (frame w) =? 0) && (1 <=? steps))%Z then
    let state := with_loaderStep (frame w) (ceil_div 100 steps) in
    let state := with_loaderWidth state 1 in
    let state := with_loaderUnit state (vw (loaderWidth state)) in
    with_frame w state
  else w.

Definition incrementLoader (w : World) : World :=
  let width := Z.min (loaderWidth (frame w) + loaderStep (frame w))%Z 100%Z in
  let state := with_loaderWidth (frame w) width in
  let state := with_loaderUnit state (vw (loaderWidth state)) in
  let w := with_frame w state in
  if (100 <=? width)%Z && isNil (loaderTimeout (cache w)) then
    let '(h, w) := setTimeout 500 w in
    with_cache w {| loaderTimeout := Some h |}
  else w.

Definition resetLoader (w : World) : World :=
  let state := with_loaderStep (frame w) 0 in
  let state := with_loaderWidth state 0 in
  let state := with_loaderUnit state (vw (loaderWidth state)) in
  with_frame w state.

Definition getState (w : World) : FrameState := frame w.

(** *** The provider: [ViewFrameProvider.initialize] *)

(** [frameState[name]] *)
Definition field (fs : FrameState) (name : string) : value :=
  if String.eqb name "sessionTheme" then sessionTheme fs
  else if String.eqb name "frameTitle" then frameTitle fs
  else if String.eqb name "routeNext" then routeNext fs
  else if String.eqb name "breadcrumbs" then VArr (breadcrumbs fs)
  else if String.eqb name "serverHost" then serverHost fs
  else if String.eqb name "actionButtons" then VArr (actionButtons fs)
  else if String.eqb name "loaderWidth" then VNum (Int (loaderWidth fs))
  else if String.eqb name "loaderStep" then VNum (Int (loaderStep fs))
  else if String.eqb name "loaderUnit" then loaderUnit fs
  else VUndefined.

(** [frameState[name] = v].  [None] when the state that results is not a
    [FrameState]: a stack that is no array, a loader width or step that is no
    integer, or a property the record does not have. *)
Definition assign (fs : FrameState) (name : string) (v : value)
  : option FrameState :=
  if String.eqb name "sessionTheme" then Some (with_sessionTheme fs v)
  else if String.eqb name "frameTitle" then Some (with_frameTitle fs v)
  else if String.eqb name "routeNext" then Some (with_routeNext fs v)
  else if String.eqb name "breadcrumbs" then
    match v with
    | VArr l => Some (with_breadcrumbs fs l)
    | _ => None
    end
  else if String.eqb name "serverHost" then Some (with_serverHost fs v)
  else if String.eqb name "actionButtons" then
    match v with
    | VArr l => Some (with_actionButtons fs l)
    | _ => None
    end
  else if String.eqb name "loaderWidth" then
    match v with
    | VNum x => option_map (with_loaderWidth fs) (integer x)
    | _ => None
    end
  else if String.eqb name "loaderStep" then
    match v with
    | VNum x => option_map (with_loaderStep fs) (integer x)
    | _ => None
    end
  else if String.eqb name "loaderUnit" then Some (with_loaderUnit fs v)
  else None.

(** One turn of the loop over the option names. *)
Definition initialize_step (options : object) (state : option FrameState)
  (name : string) : option FrameState :=
  match state with
  | None => None
  | Some fs =>
      if negb (isDefined (field fs name)) then Some fs
      else assign fs name (get options name)
  end.

Definition initialize (options : object) (fs : FrameState)
  : option FrameState :=
  fold_left (initialize_step options) (keys options) (Some fs).

(** *** Runs of the factory *)

(** A call into the factory that changes the state, or time passing. *)
Inductive event : Type :=
| SetSessionTheme (color : value)
| SetTitle (title : value)
| AddAction (displayText redirect styles target endpoint : value)
| ClearActions
| AddBreadcrumb (redirect displayText : value)
| ClearBreadcrumbs
| PreviousRoute (shouldPop : value)
| SetLoaderSteps (steps : Z)
| IncrementLoader
| ResetLoader
| Elapse (d : N).

Definition perform (isEmpty : value -> bool) (w : World) (e : event) : World :=
  match e with
  | SetSessionTheme color => setSessionTheme color w
  | SetTitle title => setTitle title w
  | AddAction displayText redirect styles target endpoint =>
      addAction displayText redirect styles target endpoint w
  | ClearActions => clearActions w
  | AddBreadcrumb redirect displayText =>
      addBreadcrumb isEmpty redirect displayText w
  | ClearBreadcrumbs => clearBreadcrumbs w
  | PreviousRoute shouldPop => snd (previousRoute shouldPop w)
  | SetLoaderSteps steps => setLoaderSteps steps w
  | IncrementLoader => incrementLoader w
  | ResetLoader => resetLoader w
  | Elapse d => elapse d w
  end.

Definition run (isEmpty : value -> bool) (events : list event) (w : World)
  : World :=
  fold_left (perform isEmpty) events w.

(** The loader between two calls: the width within 0 and 100, a step that
    is not negative, the unit rendering the width, and the host holding
    exactly the reset timer the module holds, due within the delay, which is
    pending whenever the width is 100. *)
Definition loader_inv (w : World) : Prop :=
  (0 <= loaderWidth (frame w) <= 100)%Z /\
  (0 <= loaderStep (frame w))%Z /\
  loaderUnit (frame w) = vw (loaderWidth (frame w)) /\
  match loaderTimeout (cache w) with
  | None => timers w = [] /\ loaderWidth (frame w) <> 100%Z
  | Some h => exists due, timers w = [(h, due)] /\ (due <= now w + 500)%N
  end.

(** Time passing with no timer running. *)
Definition advance (d : N) (w : World) : World :=
  {| frame := frame w; cache := cache w; timers := timers w;
     now := (now w + d)%N; nextHandle := nextHandle w |}.

(** The world once the reset timer has run. *)
Definition fired (d : N) (w : World) : World :=
  {| frame :=
       with_loaderUnit
         (with_loaderWidth (with_loaderStep (frame w) 0) 0) (VStr "0vw");
     cache := {| loaderTimeout := None |};
     timers := [];
     now := (now w + d)%N;
     nextHandle := nextHandle w |}.


(** The integer a value holds, zero when it holds none. *)
Definition held (v : value) : Z :=
  match v with
  | VNum x =>
      match integer x with
      | Some z => z
      | None => 0%Z
      end
  | _ => 0%Z
  end.

(** The values an option may give a field the factory computes with: an
    array for a stack, an integer for the loader width and step. *)
Definition fits (name : string) (v : value) : bool :=
  if String.eqb name "breadcrumbs" || String.eqb name "actionButtons" then
    match v with
    | VArr _ => true
    | _ => false
    end
  else if String.eqb name "loaderWidth" || String.eqb name "loaderStep" then
    match v with
    | VNum x =>
        match integer x with
        | Some _ => true
        | None => false
        end
    | _ => false
    end
  else true.

End ViewFrame.

(** ** The REST factory: [buildRESTFactory] *)

Module RestFactory.

Import Rest.

Section Factory.

(** The Angular [$http] service the factory is built over, and what it
    returns. *)
Variable R : Type.
Variable http : object -> R.

Definition request (options : value) (cfg : RestConfig) : completion R :=
  descriptor <- configure_argument cfg options ;;
  Normal (http descriptor).

Definition get (endpoint : value) (cfg : RestConfig) : completion R :=
  descriptor <-
    configure cfg [("method", VStr "GET"); ("endpoint", endpoint)] ;;
  Normal (http descriptor).

Definition post (endpoint payload : value) (cfg : RestConfig)
  : completion R :=
  descriptor <-
    configure cfg
      [("method", VStr "POST"); ("data", payload); ("endpoint", endpoint)] ;;
  Normal (http descriptor).

Definition put (endpoint payload : value) (cfg : RestConfig)
  : completion R :=
  descriptor <-
    configure cfg
      [("method", VStr "PUT"); ("data", payload); ("endpoint", endpoint)] ;;
  Normal (http descriptor).

Definition patch (endpoint payload : value) (cfg : RestConfig)
  : completion R :=
  descriptor <-
    configure cfg
      [("method", VStr "PATCH"); ("data", payload); ("endpoint", endpoint)] ;;
  Normal (http descriptor).

Definition delete (endpoint : value) (cfg : RestConfig) : completion R :=
  descriptor <-
    configure cfg [("method", VStr "DELETE"); ("endpoint", endpoint)] ;;
  Normal (http descriptor).

End Factory.

Definition setHost (h : value) (cfg : RestConfig) : RestConfig :=
  assign cfg "host" h.

End RestFactory.

(** ** lib/rest-utils.js *)

Module RestUtils.

Section Toolkit.

(** [isObject] and [isText] of lib/core-toolkit.js are not part of the
    sources at hand; [urlQuery] is taken over any such tests. *)
Variable isObject : value -> bool.
Variable isText : value -> bool.

Definition urlQuery (options : value) : completion value :=
  if isObject options then
    params <-
      forEach (for_in options)
        (fun params name =>
           v <- get_prop options name ;;
           Normal (Web.append params name v))
        ([] : Web.URLSearchParams) ;;
    Normal (add (VStr "?") (VStr (Web.toString params)))
  else if isText options then Normal (VStr ("?" ++ ToString options))
  else Normal (VStr "").

End Toolkit.

End RestUtils.

(** ** The controllers' calls into the two services *)

Module ConsumerList.

Import ViewFrame.

(** [fetchConsumerList], the calls into the view frame: the two made when
    the request is issued, and the one made when it has completed. *)
Definition fetchConsumerList_issued (w : World) : World :=
  incrementLoader (setLoaderSteps 2 w).

Definition fetchConsumerList_finally (w : World) : World :=
  incrementLoader w.

(** [ConsumerListController], the calls into the view frame made while the
    controller is constructed, in the order of the source. *)
Definition ConsumerListController (isEmpty : value -> bool) (w : World)
  : World :=
  let w := clearBreadcrumbs w in
  let w := addBreadcrumb isEmpty (VStr "#!/consumers") (VStr "Consumers") w in
  let w := setTitle (VStr "Consumers") w in
  let w :=
    addAction (VStr "New Consumer") (VStr "#!/consumers/__create__")
      VUndefined VUndefined VUndefined w in
  fetchConsumerList_issued w.

End ConsumerList.

Module ClientSetup.

(** [attemptConnection], the options of the request it issues, from the
    fields of the setup model: the user name is a text. *)
Definition attemptConnection_options
  (protocol adminHost adminPort : value) (username : string)
  (password : value) : object :=
  let options :=
    [ ("url", VStr (ToString protocol ++ "://" ++ ToString adminHost ++
                    ":" ++ ToString adminPort));
      ("method", VStr "GET");
      ("headers", VObj []) ] in
  if (1 <=? String.length username)%nat
  then Rest.set_header options "Authorization"
         (VStr (username ++ ":" ++ ToString password))
  else options.

End ClientSetup.

(** ** Vocabulary of the further properties *)

Module Vocabulary.

(** The properties [for...in] and [Object.keys] give for the caller's
    headers: none when they are not of type object. *)
Definition supplied_headers (options : object) : object :=
  if typeof_is (get options "headers") "object"
  then props_of (get options "headers") else [].

(** The header [k] of a descriptor: none when the descriptor has no
    [headers]. *)
Definition header_of (request : object) (k : string) : option value :=
  match lookup request "headers" with
  | Some (VObj hs) => lookup hs k
  | _ => None
  end.

(** A breadcrumb as [addBreadcrumb] pushes it. *)
Definition is_entry (v : value) : Prop :=
  exists redirect displayText,
    v = VObj [("redirect", redirect); ("displayText", displayText)].

End Vocabulary.

(** * Properties *)

(** ** Property lists *)

Section PropertyLists.

Lemma lookup_set_same (o : object) (k : string) (v : value) :
  lookup (set o k v) k = Some v.
Proof.
  induction o as [|[k' w] o IH]; simpl.
  - now rewrite String.eqb_refl.
  - destruct (String.eqb k' k) eqn:E; simpl; rewrite E; auto.
Qed.

Lemma lookup_set_other (o : object) (k k' : string) (v : value) :
  k <> k' -> lookup (set o k v) k' = lookup o k'.
Proof.
  intros Hne. induction o as [|[k0 w] o IH]; simpl.
  - apply String.eqb_neq in Hne. now rewrite Hne.
  - destruct (String.eqb k0 k) eqn:E; simpl.
    + apply String.eqb_eq in E. subst k0.
      apply String.eqb_neq in Hne. now rewrite Hne.
    + now rewrite IH.
Qed.

Lemma get_set_same (o : object) (k : string) (v : value) :
  get (set o k v) k = v.
Proof. unfold get. now rewrite lookup_set_same. Qed.

Lemma get_set_other (o : object) (k k' : string) (v : value) :
  k <> k' -> get (set o k v) k' = get o k'.
Proof. intros. unfold get. now rewrite lookup_set_other. Qed.

Lemma lookup_delete_same (o : object) (k : string) :
  lookup (delete o k) k = None.
Proof.
  induction o as [|[k' w] o IH]; simpl; auto.
  destruct (String.eqb k' k) eqn:E; simpl; auto. now rewrite E.
Qed.

Lemma set_not_nil (o : object) (k : string) (v : value) : set o k v <> [].
Proof.
  destruct o as [|[k' w] o]; simpl; [discriminate|].
  destruct (String.eqb k' k); discriminate.
Qed.

(** Setting the properties [ks] one after the other, each to [f k]. *)
Lemma lookup_fold_set (f : string -> value) (ks : list string) (o : object)
  (k : string) :
  lookup (fold_left (fun o k => set o k (f k)) ks o) k =
  if existsb (String.eqb k) ks then Some (f k) else lookup o k.
Proof.
  revert o. induction ks as [|k0 ks IH]; intros o; simpl; auto.
  rewrite IH. destruct (String.eqb k k0) eqn:E; simpl.
  - apply String.eqb_eq in E. subst k0.
    rewrite lookup_set_same. now destruct (existsb _ ks).
  - apply String.eqb_neq in E.
    rewrite lookup_set_other by congruence. reflexivity.
Qed.

Lemma fold_set_not_nil (f : string -> value) (ks : list string) (o : object) :
  ks <> [] \/ o <> [] -> fold_left (fun o k => set o k (f k)) ks o <> [].
Proof.
  revert o. induction ks as [|k0 ks IH]; intros o H; simpl.
  - destruct H; congruence.
  - apply IH. right. apply set_not_nil.
Qed.

Lemma existsb_eqb_keys (o : object) (k : string) :
  existsb (String.eqb k) (keys o) = true <-> lookup o k <> None.
Proof.
  induction o as [|[k' w] o IH]; simpl.
  - split; [discriminate | congruence].
  - rewrite (String.eqb_sym k k').
    destruct (String.eqb k' k); simpl; [split; [discriminate|auto] | exact IH].
Qed.

(** In an object, whose keys are distinct, every entry is what its key
    looks up. *)
Lemma get_entries (o : object) :
  NoDup (keys o) -> map (fun k => (k, get o k)) (keys o) = o.
Proof.
  induction o as [|[k w] o IH]; simpl; auto.
  intros Hnd. inversion Hnd as [|? ? Hnotin Hnd']; subst.
  unfold get at 1. simpl. rewrite String.eqb_refl. f_equal.
  rewrite <- (IH Hnd') at 2. apply map_ext_in.
  intros k' Hin. unfold get. simpl.
  destruct (String.eqb k k') eqn:E; auto.
  apply String.eqb_eq in E. subst. contradiction.
Qed.

(** A number that holds an integer is the [Int] of it. *)
Lemma integer_Int (x : number) (z : Z) : integer x = Some z -> Int z = x.
Proof.
  unfold integer. intros H.
  destruct (match FloatOps.Prim2SF x with
            | SpecFloat.S754_zero _ => _
            | _ => _
            end) as [z'|]; [|discriminate].
  destruct (PrimFloat.Leibniz.eqb (Int z') x) eqn:E; [|discriminate].
  injection H as <-. now apply FloatAxioms.Leibniz.eqb_spec.
Qed.

End PropertyLists.

(** ** The request builder *)

Module RestFacts.

Import Rest CoreUtils.

Lemma configure_split (cfg : RestConfig) (options : object) :
  configure cfg options = configure_rest options (configure_store cfg options).
Proof.
  unfold configure, configure_store, resolved_url, store_headers.
  destruct (typeof_is (get options "url") "string");
    destruct (typeof_is (get options "data") "object");
    destruct (typeof_is (authorization cfg) "string");
    destruct (typeof_is (accept cfg) "string");
    destruct (typeof_is (contentType cfg) "string");
    reflexivity.
Qed.

Lemma typeof_object (v : value) :
  typeof_is v "object" = true ->
  v = VNull \/ (exists l, v = VArr l) \/ (exists o, v = VObj o).
Proof. destruct v; try discriminate; eauto. Qed.

Lemma get_prop_own (v : value) (key : string) :
  v <> VNull -> v <> VUndefined -> get_prop v key = Normal (own v key).
Proof.
  intros Hn Hu. unfold own.
  destruct v; try congruence; simpl;
    try destruct (String.eqb key "length"); reflexivity.
Qed.

(** The loop over the caller's headers changes the [headers] property and
    nothing else. *)
Lemma supplied_headers_loop (supplied : value) (items : list string)
  (m u : value) (hs : object) (c : bool) (d : object) :
  supplied <> VNull -> supplied <> VUndefined ->
  forEach items
    (fun request item =>
       v <- get_prop supplied item ;; Normal (set_header request item v))
    (shape m u hs c d)
  = Normal (shape m u
              (fold_left (fun hs item => set hs item (own supplied item))
                 items hs) c d).
Proof.
  intros Hn Hu. revert hs.
  induction items as [|item items IH]; intros hs; simpl; auto.
  rewrite (get_prop_own _ _ Hn Hu). simpl. apply IH.
Qed.

(** The loop over the query appends the entries that are not [null]. *)
Lemma query_loop (query : value) (params : list string)
  (acc : Web.URLSearchParams) :
  (params = [] \/ (query <> VNull /\ query <> VUndefined)) ->
  forEach params
    (fun acc param =>
       v <- get_prop query param ;;
       Normal (if negb (is_null v) then Web.append acc param v else acc))
    acc
  = Normal (acc ++
            map (fun param => (param, ToString (own query param)))
              (filter (fun param => negb (is_null (own query param)))
                 params))%list.
Proof.
  intros [-> | [Hn Hu]]; [simpl; now rewrite app_nil_r|].
  revert acc. induction params as [|param params IH]; intros acc; simpl.
  - now rewrite app_nil_r.
  - rewrite (get_prop_own _ _ Hn Hu). simpl. rewrite IH.
    destruct (is_null (own query param)); simpl; auto.
    unfold Web.append. now rewrite <- app_assoc.
Qed.

Lemma query_loop_object (query : value) :
  typeof_is query "object" = true ->
  forEach (for_in query)
    (fun acc param =>
       v <- get_prop query param ;;
       Normal (if negb (is_null v) then Web.append acc param v else acc))
    ([] : Web.URLSearchParams)
  = Normal (query_params query).
Proof.
  intros H. rewrite query_loop; [reflexivity|].
  destruct (typeof_object _ H) as [-> | [[l ->] | [o ->]]];
    [left; reflexivity | right; split; discriminate ..].
Qed.

(** [configure] returns the descriptor, unless the caller's headers are
    [null]. *)
Lemma configure_descriptor (cfg : RestConfig) (options : object) :
  get options "headers" <> VNull ->
  configure cfg options = Normal (descriptor cfg options).
Proof.
  intros Hn. rewrite configure_split.
  unfold configure_rest, configure_store, descriptor, final_url,
    merged_headers.
  assert (Hloop :
    typeof_is (get options "headers") "object" = true ->
    forall m u hs c d,
      (items <- Object_keys (get options "headers") ;;
       forEach items
         (fun request item =>
            v <- get_prop (get options "headers") item ;;
            Normal (set_header request item v))
         (shape m u hs c d))
      = Normal (shape m u
                  (fold_left
                     (fun hs item =>
                        set hs item (own (get options "headers") item))
                     (keys (props_of (get options "headers"))) hs) c d)).
  { intros Hh m u hs c d.
    assert (Hu : get options "headers" <> VUndefined)
      by (intros E; rewrite E in Hh; discriminate).
    replace (Object_keys (get options "headers"))
      with (Normal (keys (props_of (get options "headers"))))
      by (destruct (get options "headers"); try congruence; reflexivity).
    cbn [bind]. now apply supplied_headers_loop. }
  destruct (typeof_is (get options "data") "object");
    destruct (typeof_is (get options "headers") "object");
    rewrite ?Hloop by reflexivity; cbn [bind];
    (destruct (typeof_is (get options "query") "object") eqn:Hq;
     [rewrite (query_loop_object _ Hq)|]);
    cbn [bind];
    match goal with
    | |- context [shape _ _ ?hs _ _] => destruct hs; reflexivity
    end.
Qed.

(** With [null] for headers, [Object.keys] throws. *)
Lemma configure_null_headers (cfg : RestConfig) (options : object) :
  get options "headers" = VNull ->
  configure cfg options =
  Throw (TypeError "Cannot convert undefined or null to object").
Proof.
  intros Hn. rewrite configure_split. unfold configure_rest.
  rewrite Hn. reflexivity.
Qed.

Lemma append_assoc (a b c : string) : (a ++ b) ++ c = a ++ b ++ c.
Proof. induction a as [|x a IH]; simpl; [reflexivity | now rewrite IH]. Qed.

Lemma ToString_ToPrimitive (v : value) : ToString (ToPrimitive v) = ToString v.
Proof. destruct v; reflexivity. Qed.

(** [a + s] with a string [s] concatenates. *)
Lemma add_string_r (a : value) (s : string) :
  add a (VStr s) = VStr (ToString a ++ s).
Proof. destruct a as [| |[|]| | | |]; reflexivity. Qed.

Lemma add_string_l (s : string) (b : value) :
  add (VStr s) b = VStr (s ++ ToString b).
Proof. unfold add. simpl. now rewrite ToString_ToPrimitive. Qed.

Lemma typeof_string (v : value) :
  typeof_is v "string" = true <-> exists s, v = VStr s.
Proof.
  split; [destruct v; try discriminate; eauto | intros [s ->]; reflexivity].
Qed.

Lemma typeof_is_false (v : value) (t : string) :
  typeof v <> t -> typeof_is v t = false.
Proof. intros H. now apply String.eqb_neq. Qed.

Lemma typeof_is_true (v : value) (t : string) :
  typeof v = t -> typeof_is v t = true.
Proof. intros H. now apply String.eqb_eq. Qed.

Lemma descriptor_url (cfg : RestConfig) (options : object) :
  get (descriptor cfg options) "url" = final_url cfg options.
Proof. reflexivity. Qed.

(** C1.  [configure] resolves the URL of the descriptor by precedence:
    [options.url] when it is a string, as it is, whatever the host, the
    endpoint and the resource; otherwise the host followed by
    [options.endpoint] when that is a string; otherwise the host followed by
    [options.resource].  That URL is the descriptor's, followed by [?] and a
    query string when [options.query] is of type object.  ([configure]
    returns a descriptor unless [options.headers] is [null].) *)
Theorem configure_url_precedence (cfg : RestConfig) (options : object) :
  get options "headers" <> VNull ->
  exists request base,
    configure cfg options = Normal request /\
    (forall u, get options "url" = VStr u -> base = VStr u) /\
    (typeof (get options "url") <> "string" ->
     forall e, get options "endpoint" = VStr e ->
       base = VStr (ToString (host cfg) ++ e)) /\
    (typeof (get options "url") <> "string" ->
     typeof (get options "endpoint") <> "string" ->
       base = add (host cfg) (get options "resource") /\
       forall h, host cfg = VStr h ->
         base = VStr (h ++ ToString (get options "resource"))) /\
    (typeof (get options "query") <> "object" -> get request "url" = base) /\
    (typeof (get options "query") = "object" ->
     exists qs, get request "url" = VStr (ToString base ++ "?" ++ qs)).
Proof.
  intros Hn. exists (descriptor cfg options), (resolved_url cfg options).
  split; [now apply configure_descriptor|].
  rewrite descriptor_url. unfold final_url, resolved_url.
  split; [|split; [|split; [|split]]].
  - intros u Hu. now rewrite Hu.
  - intros Hu e He. rewrite (typeof_is_false _ _ Hu), He. simpl.
    apply add_string_r.
  - intros Hu He. rewrite (typeof_is_false _ _ Hu), (typeof_is_false _ _ He).
    split; [reflexivity|]. intros h Hh. rewrite Hh. apply add_string_l.
  - intros Hq. now rewrite (typeof_is_false _ _ Hq).
  - intros Hq. rewrite (typeof_is_true _ _ Hq).
    eexists. now rewrite append_assoc.
Qed.

(** The host ["h"] and the endpoint ["/x"] give the URL ["h/x"]. *)
Lemma configure_url_precedence_witness :
  get [("method", VStr "GET"); ("endpoint", VStr "/x")] "headers" <> VNull /\
  exists request,
    configure (setHost (VStr "h") REST_CONFIG)
      [("method", VStr "GET"); ("endpoint", VStr "/x")] = Normal request /\
    get request "url" = VStr "h/x".
Proof.
  assert (Hn : get [("method", VStr "GET"); ("endpoint", VStr "/x")] "headers"
               <> VNull) by (simpl; discriminate).
  split; [exact Hn|].
  destruct (configure_url_precedence (setHost (VStr "h") REST_CONFIG)
              [("method", VStr "GET"); ("endpoint", VStr "/x")] Hn)
    as (request & base & Hc & _ & He & _ & Hq & _).
  exists request. split; [exact Hc|].
  rewrite Hq by (simpl; discriminate).
  apply He; [simpl; discriminate | reflexivity].
Defined.

Lemma get_In (o : object) (k : string) (v : value) :
  NoDup (keys o) -> In (k, v) o -> get o k = v.
Proof.
  intros Hnd Hin. rewrite <- (get_entries o Hnd) in Hin.
  apply in_map_iff in Hin. destruct Hin as [k' [E _]]. congruence.
Qed.

Lemma params_entries (read : string -> value) (o : object) :
  (forall k v, In (k, v) o -> read k = v) ->
  map (fun param => (param, ToString (read param)))
    (filter (fun param => negb (is_null (read param))) (keys o)) =
  map (fun p => (fst p, ToString (snd p)))
    (filter (fun p => negb (is_null (snd p))) o).
Proof.
  induction o as [|[k v] o IH]; intros H; simpl; auto.
  assert (IH' := IH (fun k' v' Hin => H k' v' (or_intror Hin))).
  fold (keys o). rewrite (H k v) by now left.
  destruct (is_null v); simpl; rewrite ?(H k v) by (now left);
    now rewrite IH'.
Qed.

(** The pairs of a query object, entry by entry. *)
Lemma query_params_entries (query : object) :
  NoDup (keys query) ->
  query_params (VObj query) =
  map (fun p => (fst p, ToString (snd p)))
    (filter (fun p => negb (is_null (snd p))) query).
Proof.
  intros Hnd. unfold query_params, for_in. cbn [props_of].
  apply (params_entries (own (VObj query))).
  intros k v Hin. now apply get_In.
Qed.

Lemma toString_pairs (l : object) :
  Web.toString (map (fun p => (fst p, ToString (snd p))) l) =
  join "&" (map (fun p => Web.urlencode (fst p) ++ "=" ++
                          Web.urlencode (ToString (snd p))) l).
Proof. unfold Web.toString. now rewrite map_map. Qed.

Lemma merged_headers_set_query (cfg : RestConfig) (options : object)
  (v : value) :
  descriptor cfg (set options "query" v) =
  (("method", get options "method") ::
   ("url", final_url cfg (set options "query" v)) ::
   match merged_headers cfg (get options "headers") with
   | [] => []
   | hs => [("headers", VObj hs)]
   end ++
   ("withCredentials", VBool (typeof_is (authorization cfg) "string")) ::
   (if typeof_is (get options "data") "object"
    then [("data", get options "data")] else []))%list.
Proof.
  unfold descriptor. now rewrite !get_set_other by discriminate.
Qed.

(** C3.  When [options.query] is an object, [configure] serialises it into
    a query string: the entries whose value is [null] are left out, every
    other entry appears as [name=value], both percent-encoded, in the order
    of the entries and joined by [&]; the string follows the URL that
    [configure] gives without the query and one [?], whatever that URL holds.
    (The keys of an object are distinct; [configure] returns a descriptor
    unless [options.headers] is [null].) *)
Theorem configure_query_serialization (cfg : RestConfig)
  (options query : object) :
  get options "headers" <> VNull ->
  get options "query" = VObj query ->
  NoDup (keys query) ->
  exists request plain,
    configure cfg options = Normal request /\
    configure cfg (set options "query" VUndefined) = Normal plain /\
    get request "url" =
    VStr (ToString (get plain "url") ++ "?" ++
          join "&"
            (map (fun p => Web.urlencode (fst p) ++ "=" ++
                           Web.urlencode (ToString (snd p)))
               (filter (fun p => negb (is_null (snd p))) query))).
Proof.
  intros Hn Hq Hnd.
  exists (descriptor cfg options),
         (descriptor cfg (set options "query" VUndefined)).
  split; [now apply configure_descriptor|].
  split.
  { apply configure_descriptor. now rewrite get_set_other by discriminate. }
  rewrite merged_headers_set_query, descriptor_url.
  unfold get at 2. cbn [lookup String.eqb Ascii.eqb Bool.eqb].
  unfold final_url, resolved_url.
  rewrite get_set_same, !get_set_other by discriminate.
  rewrite Hq. cbn [typeof_is typeof String.eqb Ascii.eqb Bool.eqb].
  rewrite (query_params_entries _ Hnd), toString_pairs.
  now rewrite append_assoc.
Qed.

(** A URL that has a [?] already gets a second one; the [null] entry is
    left out; the numbers 10^21 and 3/2 are sent as JavaScript prints
    them. *)
Lemma configure_query_serialization_witness :
  let query :=
    [("a", VNum (Int 1)); ("b", VNull); ("c d", VStr "e&f");
     ("n", VNum (Int (10 ^ 21)));
     ("h", VNum (PrimFloat.div (Int 3) (Int 2)))] in
  let options := [("url", VStr "http://a?x=1"); ("query", VObj query)] in
  get options "headers" <> VNull /\
  get options "query" = VObj query /\
  NoDup (keys query) /\
  exists request,
    configure REST_CONFIG options = Normal request /\
    get request "url" = VStr "http://a?x=1?a=1&c+d=e%26f&n=1e%2B21&h=1.5".
Proof.
  intros query options.
  assert (Hn : get options "headers" <> VNull) by (simpl; discriminate).
  assert (Hq : get options "query" = VObj query) by reflexivity.
  assert (Hd : NoDup (keys query)).
  { repeat constructor; simpl; intuition discriminate. }
  repeat split; auto.
  destruct (configure_query_serialization REST_CONFIG options query Hn Hq Hd)
    as (request & plain & Hc & Hp & Hu).
  exists request. split; [exact Hc|].
  rewrite Hu. injection Hp as <-. vm_compute. reflexivity.
Defined.

Lemma store_headers_entries (cfg : RestConfig) :
  store_headers cfg =
  ((if typeof_is (authorization cfg) "string"
    then [("Authorization", authorization cfg)] else []) ++
   (if typeof_is (accept cfg) "string"
    then [("Accept", accept cfg)] else []) ++
   (if typeof_is (contentType cfg) "string"
    then [("Content-Type", contentType cfg)] else []))%list.
Proof.
  unfold store_headers.
  destruct (typeof_is (authorization cfg) "string");
    destruct (typeof_is (accept cfg) "string");
    destruct (typeof_is (contentType cfg) "string"); reflexivity.
Qed.

Lemma lookup_store_headers (cfg : RestConfig) (k : string) :
  lookup (store_headers cfg) k = expected_header cfg [] k.
Proof.
  rewrite store_headers_entries. unfold expected_header. cbn [lookup].
  rewrite (String.eqb_sym k "Authorization"), (String.eqb_sym k "Accept"),
    (String.eqb_sym k "Content-Type").
  destruct (String.eqb_spec "Authorization" k) as [<-|N1];
    [|destruct (String.eqb_spec "Accept" k) as [<-|N2];
      [|destruct (String.eqb_spec "Content-Type" k) as [<-|N3]]];
    destruct (typeof_is (authorization cfg) "string");
    destruct (typeof_is (accept cfg) "string");
    destruct (typeof_is (contentType cfg) "string");
    try reflexivity;
    cbn [app lookup];
    rewrite ?(proj2 (String.eqb_neq _ _) N1), ?(proj2 (String.eqb_neq _ _) N2),
      ?(proj2 (String.eqb_neq _ _) N3);
    reflexivity.
Qed.




(** C4.  With [null] for [options.headers], which passes the test
    [typeof options.headers === 'object'], [configure] throws in
    [Object.keys] and returns no descriptor, whatever the store and the
    other options hold. *)
Theorem configure_null_headers_throws (cfg : RestConfig) (options : object) :
  configure cfg (set options "headers" VNull) =
  Throw (TypeError "Cannot convert undefined or null to object").
Proof. apply configure_null_headers. apply get_set_same. Qed.

(** *** The store *)

Lemma field_assign (cfg : RestConfig) (k name : string) (v : value) :
  isDefined (field cfg k) = true ->
  field (assign cfg k v) name = if String.eqb name k then v else field cfg name.
Proof.
  unfold field, assign.
  repeat match goal with
    | |- context [String.eqb ?a ?b] =>
        destruct (String.eqb_spec a b); subst; simpl in *
    end; try congruence; try discriminate.
Qed.

Lemma field_stored_step (options : object) (cfg : RestConfig)
  (k name : string) :
  field (stored_step options cfg k) name =
  if String.eqb name k && isDefined (field cfg k)
  then stored options k else field cfg name.
Proof.
  unfold stored_step.
  destruct (isDefined (field cfg k)) eqn:D; cbn [negb].
  - rewrite andb_true_r. now rewrite field_assign.
  - now rewrite andb_false_r.
Qed.

Lemma field_stored_names (options : object) (names : list string)
  (cfg : RestConfig) (name : string) :
  field (fold_left (stored_step options) names cfg) name =
  if existsb (String.eqb name) names && isDefined (field cfg name)
  then stored options name else field cfg name.
Proof.
  revert cfg. induction names as [|k names IH]; intros cfg; simpl; auto.
  rewrite IH, !field_stored_step.
  destruct (String.eqb_spec name k) as [->|Hne]; simpl; auto.
  destruct (isDefined (field cfg k)) eqn:D; simpl.
  - destruct (existsb (String.eqb k) names); simpl; auto.
    now destruct (isDefined (stored options k)).
  - rewrite D. now rewrite andb_false_r.
Qed.

Lemma config_ext (a b : RestConfig) :
  (forall name, field a name = field b name) -> a = b.
Proof.
  intros H. destruct a, b.
  pose proof (H "host") as H1. pose proof (H "authorization") as H2.
  pose proof (H "accept") as H3. pose proof (H "contentType") as H4.
  cbn in H1, H2, H3, H4. congruence.
Qed.

Lemma authorization_field (cfg : RestConfig) :
  authorization cfg = field cfg "authorization".
Proof. reflexivity. Qed.

(** Going twice through the same names stores what going once does. *)
Lemma stored_names_twice (options : object) (names : list string)
  (cfg : RestConfig) :
  fold_left (stored_step options) names
    (fold_left (stored_step options) names cfg) =
  fold_left (stored_step options) names cfg.
Proof.
  apply config_ext. intros name. rewrite !field_stored_names.
  destruct (existsb (String.eqb name) names); cbn [andb]; [|reflexivity].
  destruct (isDefined (field cfg name)) eqn:D; [|now rewrite D].
  now destruct (isDefined (stored options name)).
Qed.


Lemma before_authorization_clear (names : list string) :
  existsb (String.eqb "authorization") (before_authorization names) = false.
Proof.
  induction names as [|k names IH]; cbn [before_authorization]; auto.
  destruct (String.eqb_spec k "authorization") as [->|Hne]; auto.
  cbn [existsb]. rewrite IH, String.eqb_sym.
  now rewrite (proj2 (String.eqb_neq _ _) Hne).
Qed.

(** Once the loop has thrown, the names that remain are not visited. *)
Lemma initialize_thrown (options : object) (names : list string) (e : exn)
  (cfg : RestConfig) :
  fold_left (initialize_step options) names (Throw e, cfg) = (Throw e, cfg).
Proof. induction names as [|k names IH]; [reflexivity | exact IH]. Qed.

(** One turn of the loop: it throws at a credential [btoa] refuses, and
    stores the option otherwise. *)
Lemma initialize_step_stored (options : object) (cfg : RestConfig)
  (name : string) :
  initialize_step options (Normal tt, cfg) name =
  if String.eqb name "authorization" && isDefined (authorization cfg)
     && negb (Web.latin1 (ToString (get options "authorization")))
  then (Throw Web.invalid_character, cfg)
  else (Normal tt, stored_step options cfg name).
Proof.
  unfold initialize_step, stored_step, stored. cbn [fst snd].
  destruct (String.eqb_spec name "authorization") as [->|Hne]; cbn [andb].
  - change (field cfg "authorization") with (authorization cfg).
    destruct (isDefined (authorization cfg)); cbn [negb andb]; auto.
    unfold Web.btoa.
    now destruct (Web.latin1 (ToString (get options "authorization"))).
  - now destruct (isDefined (field cfg name)).
Qed.

Lemma stored_step_authorization (options : object) (cfg : RestConfig)
  (name : string) :
  name <> "authorization" ->
  authorization (stored_step options cfg name) = authorization cfg.
Proof.
  intros Hne. rewrite !authorization_field, field_stored_step.
  rewrite String.eqb_sym. now rewrite (proj2 (String.eqb_neq _ _) Hne).
Qed.

(** The loop of [initialize] over the names: it stops at [authorization]
    when the credential is refused. *)
Lemma initialize_names (options : object) (names : list string)
  (cfg : RestConfig) :
  fold_left (initialize_step options) names (Normal tt, cfg) =
  if existsb (String.eqb "authorization") names
     && isDefined (authorization cfg)
     && negb (Web.latin1 (ToString (get options "authorization")))
  then (Throw Web.invalid_character,
        fold_left (stored_step options) (before_authorization names) cfg)
  else (Normal tt, fold_left (stored_step options) names cfg).
Proof.
  revert cfg. induction names as [|k names IH]; intros cfg; [reflexivity|].
  cbn [fold_left existsb before_authorization].
  rewrite initialize_step_stored, (String.eqb_sym "authorization" k).
  destruct (String.eqb_spec k "authorization") as [->|Hne]; cbn [andb orb].
  - destruct (isDefined (authorization cfg)) eqn:D; cbn [andb].
    + destruct (Web.latin1 (ToString (get options "authorization"))) eqn:L;
        cbn [negb]; [|apply initialize_thrown].
      rewrite IH. cbn [negb]. now rewrite andb_false_r.
    + rewrite IH.
      assert (E : stored_step options cfg "authorization" = cfg).
      { unfold stored_step.
        change (field cfg "authorization") with (authorization cfg).
        now rewrite D. }
      rewrite E, D. now rewrite andb_false_r.
  - rewrite IH, (stored_step_authorization _ _ _ Hne). reflexivity.
Qed.

Lemma initialize_cases (options : object) (cfg : RestConfig) :
  initialize options cfg =
  if refused options cfg
  then (Throw Web.invalid_character,
        fold_left (stored_step options)
          (before_authorization (keys options)) cfg)
  else (Normal tt, fold_left (stored_step options) (keys options) cfg).
Proof. apply initialize_names. Qed.

(** The store [initialize] leaves is the one some of its names build. *)
Lemma initialize_store (options : object) (cfg : RestConfig) :
  exists names,
    snd (initialize options cfg) =
    fold_left (stored_step options) names cfg /\
    (refused options cfg = true ->
     existsb (String.eqb "authorization") names = false).
Proof.
  rewrite initialize_cases. destruct (refused options cfg).
  - eexists. split; [reflexivity|]. intros _. apply before_authorization_clear.
  - eexists. split; [reflexivity | discriminate].
Qed.


Lemma add_string_l_plain (s t : string) :
  add (VStr s) (VStr t) = VStr (s ++ t).
Proof. reflexivity. Qed.









End RestFacts.

(** ** The view frame *)

Module FrameFacts.

Import ViewFrame CoreUtils.

Local Open Scope Z_scope.

(** *** Breadcrumbs *)

(** C8.  [addBreadcrumb] appends the entry with the redirect and the display
    text, and sets [routeNext] to the redirect when the stack then holds two
    entries or more, to the empty string otherwise.  A display text that is
    left out is [null] by default, and the entry then shows the redirect; so
    it does for any display text [isEmpty] tells empty, and a display text
    it does not tell empty is kept.  After
    [clearBreadcrumbs(); addBreadcrumb("/a", "A"); addBreadcrumb("/b", "B")]
    [routeNext] is ["/b"]; [previousRoute()] then returns ["/a"] and leaves
    the stack empty, and called once more returns the empty string.
    ([isEmpty] of lib/core-utils.js, which is not among the sources, tells
    [null] empty: the specification has [displayText ?? redirect].) *)
Theorem breadcrumb_scenario (isEmpty : value -> bool) (w : World)
  (redirect displayText : value) :
  isEmpty VNull = true ->
  (let entry text := VObj [("redirect", redirect); ("displayText", text)] in
   let pushed text :=
     breadcrumbs (frame (addBreadcrumb isEmpty redirect text w)) in
   pushed VUndefined = (breadcrumbs (frame w) ++ [entry redirect])%list /\
   (isEmpty displayText = true ->
    pushed displayText = (breadcrumbs (frame w) ++ [entry redirect])%list) /\
   (displayText <> VUndefined -> isEmpty displayText = false ->
    pushed displayText =
    (breadcrumbs (frame w) ++ [entry displayText])%list) /\
   routeNext (frame (addBreadcrumb isEmpty redirect displayText w)) =
     if (2 <=? List.length (pushed displayText))%nat
     then redirect else VStr "") /\
  (let w0 := clearBreadcrumbs w in
   let w1 := addBreadcrumb isEmpty (VStr "/a") (VStr "A") w0 in
   let w2 := addBreadcrumb isEmpty (VStr "/b") (VStr "B") w1 in
   let back := previousRoute VUndefined w2 in
   let again := previousRoute VUndefined (snd back) in
   routeNext (frame w2) = VStr "/b" /\
   fst back = Normal (VStr "/a") /\
   breadcrumbs (frame (snd back)) = [] /\
   fst again = Normal (VStr "") /\
   breadcrumbs (frame (snd again)) = []).
Proof.
  intros Hnull. split.
  - cbv zeta. unfold addBreadcrumb. cbn [frame with_frame breadcrumbs
      with_breadcrumbs with_routeNext routeNext].
    split; [cbn [default]; now rewrite Hnull|].
    split.
    { intros He. destruct displayText; cbn [default];
        rewrite ?Hnull, ?He; reflexivity. }
    split; [|reflexivity].
    intros Hd He. destruct displayText; cbn [default];
      rewrite ?He; try reflexivity. now contradiction Hd.
  - cbv [addBreadcrumb clearBreadcrumbs default].
    destruct (isEmpty (VStr "A")), (isEmpty (VStr "B")); repeat split.
Qed.

(** With [isEmpty] telling [null] and the empty string empty:
    [addBreadcrumb("/a")] and [addBreadcrumb("/a", "")] push an entry that
    shows ["/a"], [addBreadcrumb("/a", "A")] one that shows ["A"]. *)
Lemma breadcrumb_scenario_witness :
  let isEmpty v :=
    match v with
    | VNull | VUndefined | VStr "" => true
    | _ => false
    end in
  let shown text :=
    breadcrumbs (frame (addBreadcrumb isEmpty (VStr "/a") text start)) in
  isEmpty VNull = true /\
  isEmpty (VStr "") = true /\
  VStr "A" <> VUndefined /\ isEmpty (VStr "A") = false /\
  shown VUndefined =
    [VObj [("redirect", VStr "/a"); ("displayText", VStr "/a")]] /\
  shown (VStr "") =
    [VObj [("redirect", VStr "/a"); ("displayText", VStr "/a")]] /\
  shown (VStr "A") =
    [VObj [("redirect", VStr "/a"); ("displayText", VStr "A")]].
Proof.
  intros isEmpty shown.
  assert (H0 : isEmpty VNull = true) by reflexivity.
  assert (H1 : isEmpty (VStr "") = true) by reflexivity.
  assert (H2 : VStr "A" <> VUndefined) by discriminate.
  assert (H3 : isEmpty (VStr "A") = false) by reflexivity.
  destruct (breadcrumb_scenario isEmpty start (VStr "/a") (VStr "") H0)
    as ((Hout & Hempty & _ & _) & _).
  destruct (breadcrumb_scenario isEmpty start (VStr "/a") (VStr "A") H0)
    as ((_ & _ & Hkept & _) & _).
  split; [exact H0|]. split; [exact H1|]. split; [exact H2|].
  split; [exact H3|]. split; [exact Hout|].
  split; [exact (Hempty H1) | exact (Hkept H2 H3)].
Defined.

Lemma previousRoute_peek (w : World) :
  previousRoute (VBool false) w = (Normal (routeNext (frame w)), w).
Proof. reflexivity. Qed.

(** On an empty stack [previousRoute] returns the empty string. *)
Lemma previousRoute_empty (shouldPop : value) (w : World) :
  is_false shouldPop = false ->
  breadcrumbs (frame w) = [] ->
  previousRoute shouldPop w =
  (Normal (VStr ""), with_frame w (with_routeNext (frame w) (VStr ""))).
Proof.
  intros Hp He. unfold previousRoute.
  assert (Hd : is_false (default shouldPop (VBool true)) = false)
    by (destruct shouldPop as [| |[|]| | | |]; auto).
  rewrite Hd, He. reflexivity.
Qed.

(** C2.  With exactly one entry on the stack [previousRoute(true)] pops it,
    pops once more from the stack that is now empty and reads [redirect]
    from the [undefined] it gets: the call throws, and leaves the stack
    empty and [routeNext] as it was.  So it does after
    [clearBreadcrumbs(); addBreadcrumb("/a", "A")]. *)
Theorem previousRoute_single_entry_throws (isEmpty : value -> bool)
  (w : World) (entry : value) :
  previousRoute (VBool true)
    (with_frame w (with_breadcrumbs (frame w) [entry])) =
  (Throw (TypeError "Cannot read properties of undefined or null"),
   with_frame w (with_breadcrumbs (frame w) [])) /\
  fst (previousRoute (VBool true)
         (addBreadcrumb isEmpty (VStr "/a") (VStr "A") (clearBreadcrumbs w))) =
  Throw (TypeError "Cannot read properties of undefined or null").
Proof. split; reflexivity. Qed.

(** *** The loader *)

(** C9.  In the initial frame state the loader step is 50, not 0, and the
    width is 0: one [incrementLoader()] before any [setLoaderSteps] or
    [resetLoader] takes the width from 0 to 50. *)
Theorem initial_loader_step :
  loaderStep frameState = 50 /\
  loaderWidth frameState = 0 /\
  frame start = frameState /\
  loaderWidth (frame (incrementLoader start)) = 50 /\
  loaderUnit (frame (incrementLoader start)) = VStr "50vw".
Proof. repeat split. Qed.

Lemma ceil_div_spec (a b : Z) :
  0 < b -> (ceil_div a b - 1) * b < a <= ceil_div a b * b.
Proof.
  intros Hb. unfold ceil_div.
  pose proof (Z.div_mod (- a) b ltac:(lia)) as Hdm.
  pose proof (Z.mod_pos_bound (- a) b Hb) as Hm.
  nia.
Qed.

(** C7, at an idle loader and a step count below 1: nothing is set. *)
Lemma setLoaderSteps_zero_idle :
  loaderWidth (frame start) = 0 /\
  ~ (loaderWidth (frame (setLoaderSteps 0 start)) = 1) /\
  ~ (loaderWidth (frame (setLoaderSteps (-4) start)) = 1 /\
     loaderStep (frame (setLoaderSteps (-4) start)) = -25).
Proof.
  split; [reflexivity|]. split; [discriminate|].
  intros [H _]. discriminate.
Qed.

(** C7, amended.  Called with a step count [n] of 1 or more while the
    loader is idle, [setLoaderSteps] sets the step to ceil(100/n), the least
    integer whose product with [n] reaches 100, the width to 1 and the unit
    to ["1vw"], and nothing else; called with a smaller [n], or while the
    loader is not idle, it does nothing. *)
Theorem setLoaderSteps_idle (w : World) (n : Z) :
  (loaderWidth (frame w) = 0 -> 1 <= n ->
   setLoaderSteps n w =
     with_frame w
       (with_loaderUnit
          (with_loaderWidth
             (with_loaderStep (frame w) (ceil_div 100 n)) 1) (VStr "1vw")) /\
   (ceil_div 100 n - 1) * n < 100 <= ceil_div 100 n * n) /\
  (n < 1 -> setLoaderSteps n w = w) /\
  (loaderWidth (frame w) <> 0 -> setLoaderSteps n w = w).
Proof.
  unfold setLoaderSteps. split; [intros Hw Hn; split|split].
  - rewrite Hw. apply Z.leb_le in Hn. rewrite Hn. reflexivity.
  - apply ceil_div_spec. lia.
  - intros Hn. apply Z.leb_gt in Hn. rewrite Hn, andb_false_r. reflexivity.
  - intros Hw. apply Z.eqb_neq in Hw. rewrite Hw. reflexivity.
Qed.

(** Three steps from the initial state: a step of 34. *)
Lemma setLoaderSteps_idle_witness :
  loaderWidth (frame start) = 0 /\ 1 <= 3 /\
  loaderStep (frame (setLoaderSteps 3 start)) = 34 /\
  loaderWidth (frame (setLoaderSteps 3 start)) = 1 /\
  -2 < 1 /\ setLoaderSteps (-2) start = start /\
  loaderWidth (frame (setLoaderSteps 3 start)) <> 0 /\
  setLoaderSteps 5 (setLoaderSteps 3 start) = setLoaderSteps 3 start.
Proof.
  assert (H0 : loaderWidth (frame start) = 0) by reflexivity.
  assert (H3 : 1 <= 3) by lia.
  assert (H2 : -2 < 1) by lia.
  assert (H1 : loaderWidth (frame (setLoaderSteps 3 start)) <> 0)
    by (simpl; discriminate).
  destruct (setLoaderSteps_idle start 3) as (Hidle & _ & _).
  destruct (Hidle H0 H3) as (Hset & _).
  destruct (setLoaderSteps_idle start (-2)) as (_ & Hlow & _).
  destruct (setLoaderSteps_idle (setLoaderSteps 3 start) 5) as (_ & _ & Hbusy).
  repeat split; auto; now rewrite Hset.
Defined.

Lemma elapse_idle (d : N) (w : World) :
  timers w = [] -> elapse d w = advance d w.
Proof.
  destruct w as [fs c ts t nh]. cbn. intros ->. reflexivity.
Qed.

Lemma elapse_early (d : N) (w : World) (h : handle) (due : N) :
  timers w = [(h, due)] -> (now w + d < due)%N -> elapse d w = advance d w.
Proof.
  destruct w as [fs c ts t nh]. cbn. intros -> Hlt.
  unfold elapse, fire_due, fire_next, advance. cbn.
  apply N.leb_gt in Hlt. rewrite Hlt. reflexivity.
Qed.

Lemma elapse_due (d : N) (w : World) (h : handle) (due : N) :
  timers w = [(h, due)] -> (due <= now w + d)%N -> elapse d w = fired d w.
Proof.
  destruct w as [fs [held] ts t nh]. cbn. intros -> Hle.
  unfold elapse, fire_due, fire_next, fired. cbn.
  apply N.leb_le in Hle. rewrite Hle. cbn.
  unfold loaderTimeoutCallback, clearTimeout. cbn.
  rewrite Nat.eqb_refl. cbn. now destruct held.
Qed.

Lemma loader_inv_start : loader_inv start.
Proof. repeat split; cbn; lia. Qed.

(** The calls that leave the loader, the timers and the clock alone. *)
Lemma loader_inv_frame (w w' : World) :
  loaderWidth (frame w') = loaderWidth (frame w) ->
  loaderStep (frame w') = loaderStep (frame w) ->
  loaderUnit (frame w') = loaderUnit (frame w) ->
  cache w' = cache w -> timers w' = timers w -> now w' = now w ->
  loader_inv w -> loader_inv w'.
Proof.
  unfold loader_inv. intros -> -> -> -> -> ->. auto.
Qed.

Lemma previousRoute_loader (shouldPop : value) (w : World) :
  let w' := snd (previousRoute shouldPop w) in
  loaderWidth (frame w') = loaderWidth (frame w) /\
  loaderStep (frame w') = loaderStep (frame w) /\
  loaderUnit (frame w') = loaderUnit (frame w) /\
  cache w' = cache w /\ timers w' = timers w /\ now w' = now w.
Proof.
  unfold previousRoute.
  destruct (is_false _); [repeat split|].
  destruct (_ =? _)%nat; [repeat split|].
  cbn. destruct (get_prop _ _); repeat split.
Qed.

Lemma loader_inv_setLoaderSteps (n : Z) (w : World) :
  loader_inv w -> loader_inv (setLoaderSteps n w).
Proof.
  unfold setLoaderSteps.
  destruct (Z.eqb_spec (loaderWidth (frame w)) 0) as [Hz|]; cbn; auto.
  destruct (Z.leb_spec 1 n) as [Hn|]; cbn; auto.
  unfold loader_inv. intros (Hw & Hs & Hu & Ht). cbn.
  pose proof (ceil_div_spec 100 n ltac:(lia)).
  repeat split; try lia; try nia.
  destruct (loaderTimeout (cache w)); [exact Ht|].
  split; [apply Ht | discriminate].
Qed.

Lemma loader_inv_incrementLoader (w : World) :
  loader_inv w -> loader_inv (incrementLoader w).
Proof.
  unfold loader_inv, incrementLoader. intros (Hw & Hs & Hu & Ht). cbn.
  destruct (Z.leb_spec 100
              (Z.min (loaderWidth (frame w) + loaderStep (frame w)) 100))
    as [Hge|Hlt];
    destruct (loaderTimeout (cache w)) as [h|] eqn:Hc; cbn;
    rewrite ?Hc; repeat split; try lia; auto.
  - destruct Ht as [-> _]. exists (now w + 500)%N. split; [reflexivity|lia].
  - apply Ht.
Qed.

Lemma loader_inv_resetLoader (w : World) :
  loader_inv w -> loader_inv (resetLoader w).
Proof.
  unfold loader_inv, resetLoader. intros (Hw & Hs & Hu & Ht). cbn.
  repeat split; try lia.
  destruct (loaderTimeout (cache w)); [exact Ht|].
  split; [apply Ht | discriminate].
Qed.

Lemma loader_inv_advance (d : N) (w : World) :
  loader_inv w -> loader_inv (advance d w).
Proof.
  unfold loader_inv, advance. intros (Hw & Hs & Hu & Ht). cbn.
  repeat split; try lia; auto.
  destruct (loaderTimeout (cache w)); [|exact Ht].
  destruct Ht as [due [E Hd]]. exists due. split; [exact E | lia].
Qed.

Lemma loader_inv_fired (d : N) (w : World) : loader_inv (fired d w).
Proof. unfold loader_inv, fired. cbn. repeat split; lia. Qed.

Lemma loader_inv_elapse (d : N) (w : World) :
  loader_inv w -> loader_inv (elapse d w).
Proof.
  intros H. pose proof H as (_ & _ & _ & Ht).
  destruct (loaderTimeout (cache w)) as [h|].
  - destruct Ht as [due [E _]].
    destruct (N.lt_ge_cases (now w + d) due).
    + rewrite (elapse_early _ _ _ _ E) by assumption.
      now apply loader_inv_advance.
    + rewrite (elapse_due _ _ _ _ E) by assumption. apply loader_inv_fired.
  - rewrite elapse_idle by apply Ht. now apply loader_inv_advance.
Qed.

Lemma loader_inv_perform (isEmpty : value -> bool) (w : World) (e : event) :
  loader_inv w -> loader_inv (perform isEmpty w e).
Proof.
  destruct e; cbn [perform];
    try (apply loader_inv_frame; reflexivity).
  - intros H. pose proof (previousRoute_loader shouldPop w) as P.
    cbv zeta in P. destruct P as (P1 & P2 & P3 & P4 & P5 & P6).
    now apply (loader_inv_frame w).
  - apply loader_inv_setLoaderSteps.
  - apply loader_inv_incrementLoader.
  - apply loader_inv_resetLoader.
  - apply loader_inv_elapse.
Qed.

Lemma loader_inv_run (isEmpty : value -> bool) (events : list event)
  (w : World) :
  loader_inv w -> loader_inv (run isEmpty events w).
Proof.
  revert w. induction events as [|e events IH]; intros w H; [exact H|].
  apply IH. now apply loader_inv_perform.
Qed.







(** *** The provider *)

Ltac field_cases name :=
  unfold field; cbn;
  repeat match goal with
    | |- context [String.eqb name ?b] =>
        destruct (String.eqb_spec name b) as [->|]; [reflexivity|]
    end;
  try reflexivity.

Lemma field_assign_frame (fs : FrameState) (k : string) (v : value) :
  isDefined (field fs k) = true -> fits k v = true ->
  exists fs', assign fs k v = Some fs' /\
    forall name,
      field fs' name = if String.eqb name k then v else field fs name.
Proof.
  unfold assign, fits. intros Hd Hf.
  repeat match goal with
    | |- context [String.eqb k ?b] =>
        destruct (String.eqb_spec k b) as [->|];
        [ cbn in Hf;
          try (destruct v as [| |?|x|?|?|?]; try discriminate Hf);
          try (destruct (integer x) as [z|] eqn:Hz; [|discriminate Hf];
               cbn [option_map]);
          eexists; (split; [reflexivity|]); intros name;
          try rewrite <- (integer_Int _ _ Hz);
          field_cases name |]
    end.
  unfold field in Hd.
  repeat match type of Hd with
    | context [String.eqb k ?b] =>
        destruct (String.eqb_spec k b); [congruence|]
    end.
  discriminate.
Qed.

Lemma field_initialize_frame (options : object) (names : list string)
  (fs : FrameState) :
  (forall k, In k names -> fits k (get options k) = true) ->
  exists fs',
    fold_left (initialize_step options) names (Some fs) = Some fs' /\
    forall name,
      field fs' name =
      if existsb (String.eqb name) names && isDefined (field fs name)
      then get options name else field fs name.
Proof.
  revert fs. induction names as [|k names IH]; intros fs Hfit.
  - exists fs. split; reflexivity.
  - cbn [fold_left initialize_step].
    destruct (isDefined (field fs k)) eqn:D; cbn [negb].
    + destruct (field_assign_frame fs k (get options k) D) as (fs1 & Ha & Hf1);
        [apply Hfit; now left|].
      rewrite Ha.
      destruct (IH fs1) as (fs' & Hr & Hf');
        [intros; apply Hfit; now right|].
      exists fs'. split; [exact Hr|]. intros name.
      rewrite Hf', !Hf1. cbn [existsb].
      destruct (String.eqb_spec name k) as [->|]; cbn; auto.
      rewrite D.
      destruct (existsb (String.eqb k) names); cbn; auto.
      now destruct (isDefined (get options k)).
    + destruct (IH fs) as (fs' & Hr & Hf');
        [intros; apply Hfit; now right|].
      exists fs'. split; [exact Hr|]. intros name.
      rewrite Hf'. cbn [existsb].
      destruct (String.eqb_spec name k) as [->|]; cbn; auto.
      rewrite D. now rewrite andb_false_r.
Qed.

(** C10.  [initialize] overwrites the fields of the frame state that its
    options name and that are defined, with the value of the option, and
    leaves every other field as it is; the unit is left as it is unless the
    options name it.  After [initialize({loaderWidth: 40})] on the initial
    state the width is 40 and the unit still ["0vw"], not the rendering of
    the width.  (The options give arrays for the stacks and integers for the
    loader width and step.) *)
Theorem initialize_frame_fields (options : object) (fs : FrameState) :
  (forall k, In k (keys options) -> fits k (get options k) = true) ->
  (exists fs',
     initialize options fs = Some fs' /\
     (forall name,
        field fs' name =
        if existsb (String.eqb name) (keys options) &&
           isDefined (field fs name)
        then get options name else field fs name) /\
     (lookup options "loaderUnit" = None -> loaderUnit fs' = loaderUnit fs)) /\
  (exists fs',
     initialize [("loaderWidth", VNum (Int 40))] frameState = Some fs' /\
     loaderWidth fs' = 40 /\
     loaderUnit fs' = VStr "0vw" /\
     loaderUnit fs' <> vw (loaderWidth fs')).
Proof.
  intros Hfit. split.
  - destruct (field_initialize_frame options (keys options) fs Hfit)
      as (fs' & Hr & Hf).
    exists fs'. split; [exact Hr|]. split; [exact Hf|].
    intros Hl.
    assert (E : existsb (String.eqb "loaderUnit") (keys options) = false).
    { destruct (existsb _ _) eqn:E; auto.
      apply existsb_eqb_keys in E. contradiction. }
    pose proof (Hf "loaderUnit") as Hu. rewrite E in Hu. exact Hu.
  - eexists. split; [reflexivity|]. repeat split.
    intros H. vm_compute in H. discriminate H.
Qed.

(** An unknown key and a width: only the width changes. *)
Lemma initialize_frame_fields_witness :
  let options :=
    [("unknownKey", VNum (Int 1)); ("loaderWidth", VNum (Int 40))] in
  (forall k, In k (keys options) -> fits k (get options k) = true) /\
  lookup options "loaderUnit" = None /\
  exists fs',
    initialize options frameState = Some fs' /\
    field fs' "loaderWidth" = VNum (Int 40) /\
    field fs' "unknownKey" = VUndefined /\
    field fs' "loaderStep" = VNum (Int 50) /\
    loaderUnit fs' = VStr "0vw".
Proof.
  intros options.
  assert (Hfit : forall k, In k (keys options) ->
                   fits k (get options k) = true).
  { intros k [<- | [<- | []]]; reflexivity. }
  assert (Hu : lookup options "loaderUnit" = None) by reflexivity.
  destruct (initialize_frame_fields options frameState Hfit)
    as ((fs' & Hi & Hf & Hunit) & _).
  split; [exact Hfit|]. split; [exact Hu|].
  exists fs'. split; [exact Hi|].
  rewrite !Hf, (Hunit Hu). repeat split.
Defined.

End FrameFacts.

(** ** More on the request builder *)

Module RestExtra.

Import Rest CoreUtils RestFacts Vocabulary.

Lemma configure_argument_read (cfg : RestConfig) (options : value) :
  options <> VUndefined -> options <> VNull ->
  configure_argument cfg options = configure cfg (props_of options).
Proof.
  intros Hu Hn. unfold configure_argument.
  now rewrite (get_prop_own _ _ Hn Hu).
Qed.

(** [configure] given any argument, the one [request] passes on, fails in
    two cases only: the argument is [undefined] or [null], as in
    [request()], where reading [options.method] throws; or its [headers]
    are [null].  In every other case it returns a descriptor.  (The host,
    the resource and the values of the query are values whose conversion to
    a string calls no method of their own, see [convertible].) *)
Theorem configure_throws_iff (cfg : RestConfig) (options : value) :
  let query := get (props_of options) "query" in
  convertible (host cfg) = true ->
  convertible (get (props_of options) "resource") = true ->
  (forall param,
     In param (for_in query) -> convertible (own query param) = true) ->
  ((exists e, configure_argument cfg options = Throw e) <->
   options = VUndefined \/ options = VNull \/
   get (props_of options) "headers" = VNull) /\
  ((exists request, configure_argument cfg options = Normal request) <->
   options <> VUndefined /\ options <> VNull /\
   get (props_of options) "headers" <> VNull).
Proof.
  intros query _ _ _. clear query.
  assert (Hdec : get (props_of options) "headers" = VNull \/
                 get (props_of options) "headers" <> VNull)
    by (destruct (get (props_of options) "headers"); auto;
        right; discriminate).
  assert (Hopt : options = VUndefined \/ options = VNull \/
                 (options <> VUndefined /\ options <> VNull))
    by (destruct options; auto; right; right; split; discriminate).
  destruct Hopt as [-> | [-> | [Hu Hn]]].
  - split; split.
    + intros _. now left.
    + intros _. eexists. reflexivity.
    + intros [request Hr]. discriminate Hr.
    + intros [H _]. now contradiction H.
  - split; split.
    + intros _. right. now left.
    + intros _. eexists. reflexivity.
    + intros [request Hr]. discriminate Hr.
    + intros [_ [H _]]. now contradiction H.
  - rewrite (configure_argument_read _ _ Hu Hn). split; split.
    + intros [e He]. destruct Hdec as [Hh | Hh]; [now right; right|].
      rewrite (configure_descriptor _ _ Hh) in He. discriminate.
    + intros [H | [H | Hh]]; [contradiction | contradiction |].
      eexists. now apply configure_null_headers.
    + intros [request Hr]. split; [exact Hu|]. split; [exact Hn|].
      intros Hh. rewrite (configure_null_headers _ _ Hh) in Hr.
      discriminate.
    + intros (_ & _ & Hh). eexists. now apply configure_descriptor.
Qed.

(** [request()] and [request({url: "u", headers: null})] throw;
    [request({url: "u"})] is given a descriptor. *)
Lemma configure_throws_iff_witness :
  let plain := VObj [("url", VStr "u")] in
  let query := get (props_of plain) "query" in
  convertible (host REST_CONFIG) = true /\
  convertible (get (props_of plain) "resource") = true /\
  (forall param,
     In param (for_in query) -> convertible (own query param) = true) /\
  (exists e, configure_argument REST_CONFIG VUndefined = Throw e) /\
  (exists e,
     configure_argument REST_CONFIG
       (VObj [("url", VStr "u"); ("headers", VNull)]) = Throw e) /\
  (exists request, configure_argument REST_CONFIG plain = Normal request).
Proof.
  intros plain query.
  assert (H1 : convertible (host REST_CONFIG) = true) by reflexivity.
  assert (H2 : convertible (get (props_of plain) "resource") = true)
    by reflexivity.
  assert (H3 : forall param,
                 In param (for_in query) ->
                 convertible (own query param) = true)
    by (intros param []).
  split; [exact H1|]. split; [exact H2|]. split; [exact H3|].
  destruct (configure_throws_iff REST_CONFIG VUndefined H1 H2 H3)
    as [[_ Ht] _].
  destruct (configure_throws_iff REST_CONFIG
              (VObj [("url", VStr "u"); ("headers", VNull)])
              H1 eq_refl H3) as [[_ Hh] _].
  destruct (configure_throws_iff REST_CONFIG plain H1 H2 H3) as [_ [_ Hr]].
  split; [apply Ht; now left|].
  split; [apply Hh; right; right; reflexivity|].
  apply Hr. split; [discriminate|]. split; discriminate.
Defined.

Lemma index_string_not_length (i : nat) : index_string i <> "length".
Proof.
  unfold index_string. destruct (Nat.to_uint i); discriminate.
Qed.

Lemma keys_indexed (elems : list value) (k : string) :
  In k (keys (indexed elems)) -> k <> "length".
Proof.
  unfold keys, indexed. intros Hin.
  apply in_map_iff in Hin. destruct Hin as [[k' v] [<- Hin]].
  apply in_combine_l in Hin. apply in_map_iff in Hin.
  destruct Hin as [i [<- _]]. apply index_string_not_length.
Qed.

(** Reading an enumerated property of an object or an array. *)
Lemma own_enumerated (v : value) (k : string) :
  typeof_is v "object" = true ->
  In k (keys (props_of v)) -> own v k = get (props_of v) k.
Proof.
  intros Ht Hin. destruct v; try discriminate; try reflexivity.
  unfold own. cbn [get_prop props_of].
  apply keys_indexed in Hin. apply String.eqb_neq in Hin.
  now rewrite Hin.
Qed.

Lemma In_keys_existsb (o : object) (k : string) :
  existsb (String.eqb k) (keys o) = true <-> In k (keys o).
Proof.
  rewrite existsb_exists. split.
  - intros [x [Hin E]]. apply String.eqb_eq in E. now subst.
  - intros Hin. exists k. split; [exact Hin | apply String.eqb_refl].
Qed.

Lemma lookup_merged_supplied (cfg : RestConfig) (options : object)
  (k : string) :
  lookup (merged_headers cfg (get options "headers")) k =
  expected_header cfg (supplied_headers options) k.
Proof.
  unfold merged_headers, supplied_headers.
  destruct (typeof_is (get options "headers") "object") eqn:Ht;
    [|apply lookup_store_headers].
  rewrite lookup_fold_set, lookup_store_headers.
  unfold expected_header at 2. cbn [lookup].
  destruct (existsb (String.eqb k) (keys (props_of (get options "headers"))))
    eqn:E.
  - pose proof E as Hin. apply In_keys_existsb in Hin.
    rewrite (own_enumerated _ _ Ht Hin).
    apply existsb_eqb_keys in E. revert E.
    generalize (props_of (get options "headers")) as props.
    intros props E. unfold expected_header, get.
    destruct (lookup props k); [reflexivity | congruence].
  - unfold expected_header.
    destruct (lookup (props_of (get options "headers")) k) eqn:L; auto.
    assert (existsb (String.eqb k) (keys (props_of (get options "headers")))
            = true) by (apply existsb_eqb_keys; congruence).
    congruence.
Qed.

Lemma header_of_descriptor (cfg : RestConfig) (options : object)
  (k : string) :
  header_of (descriptor cfg options) k =
  expected_header cfg (supplied_headers options) k.
Proof.
  rewrite <- lookup_merged_supplied. unfold header_of, descriptor.
  destruct (merged_headers cfg (get options "headers")) as [|p hs];
    [|reflexivity].
  now destruct (typeof_is (get options "data") "object").
Qed.

(** The headers of the descriptor, whenever there is one: each store field
    that is a string gives its header, the credentials flag is on exactly
    when the store's authorization is a string, a header the caller
    supplies (under exactly the same name) replaces the store's, and the
    [headers] property is there exactly when some header is. *)
Theorem configure_merges_headers (cfg : RestConfig) (options : object) :
  get options "headers" <> VNull ->
  exists request,
    configure cfg options = Normal request /\
    get request "withCredentials" =
      VBool (typeof_is (authorization cfg) "string") /\
    (forall k,
       header_of request k =
       expected_header cfg (supplied_headers options) k) /\
    (lookup request "headers" = None <->
     forall k, expected_header cfg (supplied_headers options) k = None).
Proof.
  intros Hn. exists (descriptor cfg options).
  split; [now apply configure_descriptor|].
  split.
  { unfold descriptor.
    now destruct (merged_headers cfg (get options "headers")). }
  split; [apply header_of_descriptor|].
  pose proof (lookup_merged_supplied cfg options) as L.
  unfold descriptor.
  destruct (merged_headers cfg (get options "headers")) as [|[k0 v0] hs].
  - split.
    + intros _ k. now rewrite <- L.
    + intros _. now destruct (typeof_is (get options "data") "object").
  - cbn. split; [discriminate|].
    intros H. specialize (H k0). rewrite <- L in H. cbn in H.
    now rewrite String.eqb_refl in H.
Qed.

Lemma configure_merges_headers_witness :
  let cfg := snd (setBasicAuth (VStr "u") (VStr "p") REST_CONFIG) in
  let options :=
    [("endpoint", VStr "/x");
     ("headers", VObj [("Accept", VStr "text/plain");
                       ("authorization", VStr "mine")])] in
  get options "headers" <> VNull /\
  exists request,
    configure cfg options = Normal request /\
    header_of request "Accept" = Some (VStr "text/plain") /\
    header_of request "Authorization" = Some (VStr "Basic dTpw") /\
    header_of request "authorization" = Some (VStr "mine") /\
    header_of request "Content-Type" = Some (VStr "application/json").
Proof.
  intros cfg options.
  assert (Hn : get options "headers" <> VNull) by (simpl; discriminate).
  split; [exact Hn|].
  destruct (configure_merges_headers cfg options Hn)
    as (request & Hc & _ & Hh & _).
  exists request. split; [exact Hc|]. now rewrite !Hh.
Defined.

Ltac known_property k :=
  repeat match goal with
    | |- context [String.eqb ?a k] =>
        destruct (String.eqb_spec a k) as [<-|];
        [cbn; tauto|]
    end.

(** What the descriptor is made of: the method is the caller's, as it is;
    the body is there exactly when [options.data] is of type object, [null]
    included, and is that value; and there is no property beyond [method],
    [url], [headers], [withCredentials] and [data]. *)
Theorem configure_body_and_method (cfg : RestConfig) (options : object) :
  get options "headers" <> VNull ->
  exists request,
    configure cfg options = Normal request /\
    lookup request "method" = Some (get options "method") /\
    lookup request "data" =
      (if typeof_is (get options "data") "object"
       then Some (get options "data") else None) /\
    (forall k, lookup request k <> None ->
       In k ["method"; "url"; "headers"; "withCredentials"; "data"]).
Proof.
  intros Hn. exists (descriptor cfg options).
  split; [now apply configure_descriptor|].
  unfold descriptor.
  destruct (merged_headers cfg (get options "headers")) as [|p hs];
    destruct (typeof_is (get options "data") "object");
    (split; [reflexivity|]); (split; [reflexivity|]);
    intros k; cbn [app lookup]; known_property k; congruence.
Qed.

Lemma configure_body_and_method_witness :
  let options := [("method", VStr "POST"); ("data", VNull)] in
  get options "headers" <> VNull /\
  exists request,
    configure REST_CONFIG options = Normal request /\
    lookup request "data" = Some VNull /\
    (lookup request "endpoint" <> None -> False).
Proof.
  intros options.
  assert (Hn : get options "headers" <> VNull) by (simpl; discriminate).
  split; [exact Hn|].
  destruct (configure_body_and_method REST_CONFIG options Hn)
    as (request & Hc & _ & Hd & Hk).
  exists request. split; [exact Hc|]. split; [exact Hd|].
  intros H. specialize (Hk _ H). simpl in Hk.
  repeat (destruct Hk as [Hk | Hk]; [discriminate Hk|]). exact Hk.
Defined.

Lemma append_empty (a : string) : a ++ "" = a.
Proof. induction a as [|c a IH]; simpl; [reflexivity | now rewrite IH]. Qed.

Lemma filter_none {A : Type} (f : A -> bool) (l : list A) :
  (forall x, In x l -> f x = false) -> filter f l = [].
Proof.
  induction l as [|x l IH]; intros H; simpl; auto.
  rewrite (H x) by now left. apply IH. intros y Hy. apply H. now right.
Qed.

(** A query of type object with no entry to send - [null], an empty
    object, or entries that are all [null] - still ends the URL with a
    [?]. *)
Theorem configure_bare_question_mark (cfg : RestConfig) (options : object) :
  get options "headers" <> VNull ->
  typeof (get options "query") = "object" ->
  (forall param, In param (for_in (get options "query")) ->
     own (get options "query") param = VNull) ->
  exists request plain,
    configure cfg options = Normal request /\
    configure cfg (set options "query" VUndefined) = Normal plain /\
    get request "url" = VStr (ToString (get plain "url") ++ "?").
Proof.
  intros Hn Ht Hall.
  exists (descriptor cfg options),
         (descriptor cfg (set options "query" VUndefined)).
  split; [now apply configure_descriptor|].
  split.
  { apply configure_descriptor. now rewrite get_set_other by discriminate. }
  rewrite merged_headers_set_query, descriptor_url.
  unfold get at 2. cbn [lookup String.eqb Ascii.eqb Bool.eqb].
  unfold final_url, resolved_url.
  rewrite get_set_same, !get_set_other by discriminate.
  rewrite (typeof_is_true _ _ Ht).
  cbn [typeof_is typeof String.eqb Ascii.eqb Bool.eqb].
  unfold query_params. rewrite filter_none.
  - cbn [map Web.toString join]. now rewrite append_empty.
  - intros param Hin. now rewrite (Hall param Hin).
Qed.

Lemma configure_bare_question_mark_witness :
  let options := [("url", VStr "http://a/b"); ("query", VNull)] in
  get options "headers" <> VNull /\
  typeof (get options "query") = "object" /\
  exists request,
    configure REST_CONFIG options = Normal request /\
    get request "url" = VStr "http://a/b?".
Proof.
  intros options.
  assert (Hn : get options "headers" <> VNull) by (simpl; discriminate).
  assert (Ht : typeof (get options "query") = "object") by reflexivity.
  split; [exact Hn|]. split; [exact Ht|].
  destruct (configure_bare_question_mark REST_CONFIG options Hn Ht)
    as (request & plain & Hc & Hp & Hu).
  { intros param []. }
  exists request. split; [exact Hc|].
  rewrite Hu. injection Hp as <-. reflexivity.
Defined.

(** *** The verbs of the factory *)

Lemma verb_descriptor (cfg : RestConfig) (method endpoint : value)
  (body : object) :
  (body = [] \/ exists payload, body = [("data", payload)]) ->
  let options :=
    (("method", method) :: body ++ [("endpoint", endpoint)])%list in
  configure cfg options = Normal (descriptor cfg options) /\
  lookup (descriptor cfg options) "method" = Some method /\
  get (descriptor cfg options) "url" =
    add (host cfg)
      (if typeof_is endpoint "string" then endpoint else VUndefined) /\
  lookup (descriptor cfg options) "data" =
    match body with
    | [("data", payload)] =>
        if typeof_is payload "object" then Some payload else None
    | _ => None
    end.
Proof.
  intros Hb options.
  assert (Hn : get options "headers" <> VNull)
    by (destruct Hb as [-> | [payload ->]]; cbn; discriminate).
  split; [now apply configure_descriptor|].
  subst options.
  destruct Hb as [-> | [payload ->]]; unfold descriptor; cbn [app].
  - destruct (merged_headers _ _); repeat split.
  - change (get _ "data") with payload.
    destruct (merged_headers _ _);
      destruct (typeof_is payload "object"); repeat split.
Qed.

(** The verbs never throw.  Each hands to [$http] a descriptor with its
    method and with the URL host + endpoint - host + [undefined] when the
    endpoint is not a string.  [get] and [delete] send no body; [post],
    [put] and [patch] send the payload when it is of type object, [null]
    included, and no body otherwise (a text payload is dropped). *)
Theorem verbs_build_descriptors (R : Type) (http : object -> R)
  (cfg : RestConfig) (endpoint payload : value) :
  let target :=
    add (host cfg)
      (if typeof_is endpoint "string" then endpoint else VUndefined) in
  let body := if typeof_is payload "object" then Some payload else None in
  let sent (verb : string) (data : option value) (result : completion R) :=
    exists descriptor,
      result = Normal (http descriptor) /\
      lookup descriptor "method" = Some (VStr verb) /\
      get descriptor "url" = target /\
      lookup descriptor "data" = data in
  sent "GET" None (RestFactory.get R http endpoint cfg) /\
  sent "DELETE" None (RestFactory.delete R http endpoint cfg) /\
  sent "POST" body (RestFactory.post R http endpoint payload cfg) /\
  sent "PUT" body (RestFactory.put R http endpoint payload cfg) /\
  sent "PATCH" body (RestFactory.patch R http endpoint payload cfg).
Proof.
  intros target body sent. subst sent target body. cbv beta.
  unfold RestFactory.get, RestFactory.delete, RestFactory.post,
    RestFactory.put, RestFactory.patch.
  repeat split;
    match goal with
    | |- exists _, (_ <- configure _ (("method", ?m) ::
                                       [("endpoint", ?e)]) ;; _) = _ /\ _ =>
        destruct (verb_descriptor cfg m e [] (or_introl eq_refl))
          as (Hc & Hm & Hu & Hd)
    | |- exists _, (_ <- configure _ (("method", ?m) :: ("data", ?p) ::
                                       [("endpoint", ?e)]) ;; _) = _ /\ _ =>
        destruct (verb_descriptor cfg m e [("data", p)]
                    (or_intror (ex_intro _ p eq_refl)))
          as (Hc & Hm & Hu & Hd)
    end;
    cbn [app] in Hc, Hm, Hu, Hd; rewrite Hc; cbn [bind];
    eexists; repeat split; eassumption.
Qed.

(** *** The store and the requests that follow *)

Lemma descriptor_credentials (cfg : RestConfig) (options : object) :
  get (descriptor cfg options) "withCredentials" =
  VBool (typeof_is (authorization cfg) "string").
Proof.
  unfold descriptor. now destruct (merged_headers cfg (get options "headers")).
Qed.

(** A setter of the store shows in the requests built afterwards, and only
    where it should: [setAcceptType] and [setContentType] change the one
    header named after them, to the new value when it is a string and to
    nothing otherwise, unless the caller supplies that header; [setHost]
    changes no header, and not the URL of a request that brings its own.
    None of them changes the credentials flag. *)
Theorem setters_reach_later_requests (cfg : RestConfig) (t : value)
  (options : object) :
  get options "headers" <> VNull ->
  exists before accepted typed hosted,
    configure cfg options = Normal before /\
    configure (setAcceptType t cfg) options = Normal accepted /\
    configure (setContentType t cfg) options = Normal typed /\
    configure (setHost t cfg) options = Normal hosted /\
    (forall k,
       header_of accepted k =
       if String.eqb k "Accept" &&
          negb (existsb (String.eqb k) (keys (supplied_headers options)))
       then (if typeof_is t "string" then Some t else None)
       else header_of before k) /\
    (forall k,
       header_of typed k =
       if String.eqb k "Content-Type" &&
          negb (existsb (String.eqb k) (keys (supplied_headers options)))
       then (if typeof_is t "string" then Some t else None)
       else header_of before k) /\
    (forall k, header_of hosted k = header_of before k) /\
    (typeof (get options "url") = "string" ->
     get hosted "url" = get before "url") /\
    get accepted "url" = get before "url" /\
    get typed "url" = get before "url" /\
    get accepted "withCredentials" = get before "withCredentials" /\
    get typed "withCredentials" = get before "withCredentials" /\
    get hosted "withCredentials" = get before "withCredentials".
Proof.
  intros Hn.
  exists (descriptor cfg options), (descriptor (setAcceptType t cfg) options),
    (descriptor (setContentType t cfg) options),
    (descriptor (setHost t cfg) options).
  rewrite !configure_descriptor by assumption.
  repeat (split; [reflexivity|]).
  rewrite !descriptor_credentials, !descriptor_url.
  assert (Hcase : forall k,
    existsb (String.eqb k) (keys (supplied_headers options)) = true /\
    (exists v, lookup (supplied_headers options) k = Some v) \/
    existsb (String.eqb k) (keys (supplied_headers options)) = false /\
    lookup (supplied_headers options) k = None).
  { intros k.
    destruct (existsb (String.eqb k) (keys (supplied_headers options)))
      eqn:E.
    - left. split; [reflexivity|]. apply existsb_eqb_keys in E.
      destruct (lookup (supplied_headers options) k); [eauto | congruence].
    - right. split; [reflexivity|].
      destruct (lookup (supplied_headers options) k) eqn:L; auto.
      assert (existsb (String.eqb k) (keys (supplied_headers options))
              = true) by (apply existsb_eqb_keys; congruence).
      congruence. }
  split; [|split; [|split; [|split; [|repeat split]]]].
  - intros k. rewrite !header_of_descriptor. unfold expected_header.
    destruct (Hcase k) as [[-> [v ->]] | [-> ->]];
      [now rewrite andb_false_r|].
    rewrite andb_true_r. cbn [setAcceptType assign String.eqb Ascii.eqb
      Bool.eqb authorization accept contentType].
    destruct (String.eqb_spec k "Authorization") as [->|]; [reflexivity|].
    destruct (String.eqb_spec k "Accept") as [->|]; reflexivity.
  - intros k. rewrite !header_of_descriptor. unfold expected_header.
    destruct (Hcase k) as [[-> [v ->]] | [-> ->]];
      [now rewrite andb_false_r|].
    rewrite andb_true_r. cbn [setContentType assign String.eqb Ascii.eqb
      Bool.eqb authorization accept contentType].
    destruct (String.eqb_spec k "Authorization") as [->|]; [reflexivity|].
    destruct (String.eqb_spec k "Accept") as [->|]; [reflexivity|].
    destruct (String.eqb_spec k "Content-Type") as [->|]; reflexivity.
  - intros k. now rewrite !header_of_descriptor.
  - intros Hu. unfold final_url, resolved_url.
    now rewrite (typeof_is_true _ _ Hu).
Qed.

Lemma setters_reach_later_requests_witness :
  let options := [("url", VStr "http://a"); ("headers", VObj [])] in
  get options "headers" <> VNull /\
  typeof (get options "url") = "string" /\
  exists accepted hosted,
    configure (setAcceptType VNull REST_CONFIG) options = Normal accepted /\
    configure (setHost VNull REST_CONFIG) options = Normal hosted /\
    header_of accepted "Accept" = None /\
    header_of accepted "Content-Type" = Some (VStr "application/json") /\
    get hosted "url" = VStr "http://a".
Proof.
  intros options.
  assert (Hn : get options "headers" <> VNull) by (simpl; discriminate).
  assert (Hu : typeof (get options "url") = "string") by reflexivity.
  split; [exact Hn|]. split; [exact Hu|].
  destruct (setters_reach_later_requests REST_CONFIG VNull options Hn)
    as (before & accepted & typed & hosted & Hb & Ha & _ & Hh &
        Hacc & _ & _ & Hurl & _).
  exists accepted, hosted. split; [exact Ha|]. split; [exact Hh|].
  rewrite !Hacc, (Hurl Hu). injection Hb as <-. repeat split.
Defined.

(** [initialize] a second time with the same options changes nothing: the
    authorization is encoded from the option both times, never from what
    the first call stored.  So it is when the call throws at a credential
    that [btoa] refuses: the second call throws as the first did and leaves
    the store the first left. *)
Theorem initialize_idempotent (options : object) (cfg : RestConfig) :
  initialize options (snd (initialize options cfg)) = initialize options cfg.
Proof.
  rewrite (initialize_cases options cfg).
  destruct (refused options cfg) eqn:R; cbn [snd]; rewrite initialize_cases.
  - assert (R' : refused options
                   (fold_left (stored_step options)
                      (before_authorization (keys options)) cfg) = true).
    { unfold refused in *.
      rewrite !authorization_field, field_stored_names.
      now rewrite before_authorization_clear. }
    rewrite R'. now rewrite stored_names_twice.
  - assert (R' : refused options
                   (fold_left (stored_step options) (keys options) cfg)
                 = false).
    { unfold refused in *.
      rewrite !authorization_field, field_stored_names.
      rewrite !authorization_field in R.
      destruct (existsb (String.eqb "authorization") (keys options));
        [|reflexivity].
      destruct (Web.latin1 (ToString (get options "authorization")));
        [now rewrite andb_false_r|].
      cbn [andb negb] in *. rewrite andb_true_r in R. rewrite R.
      cbn [andb]. now rewrite R. }
    rewrite R'. now rewrite stored_names_twice.
Qed.

(** A field of the store that holds [undefined] is no longer one
    [initialize] knows: whatever the options, it stays [undefined].  Only a
    setter brings it back. *)
Theorem initialize_skips_undefined (options : object) (cfg : RestConfig)
  (name : string) (t : value) :
  (field cfg name = VUndefined ->
   field (snd (initialize options cfg)) name = VUndefined) /\
  accept (snd (initialize options (setAcceptType VUndefined cfg))) =
    VUndefined /\
  accept (setAcceptType t
            (snd (initialize options (setAcceptType VUndefined cfg))))
  = t.
Proof.
  assert (H : forall c n, field c n = VUndefined ->
                field (snd (initialize options c)) n = VUndefined).
  { intros c n Hu.
    destruct (initialize_store options c) as (names & -> & _).
    rewrite field_stored_names, Hu. now rewrite andb_false_r. }
  split; [apply H|]. split; [|reflexivity].
  exact (H (setAcceptType VUndefined cfg) "accept" eq_refl).
Qed.

Lemma initialize_skips_undefined_witness :
  field (setHost VUndefined REST_CONFIG) "host" = VUndefined /\
  host (snd (initialize [("host", VStr "a")] (setHost VUndefined REST_CONFIG)))
  = VUndefined.
Proof.
  assert (Hu : field (setHost VUndefined REST_CONFIG) "host" = VUndefined)
    by reflexivity.
  split; [exact Hu|].
  destruct (initialize_skips_undefined [("host", VStr "a")]
              (setHost VUndefined REST_CONFIG) "host" VNull) as (H & _).
  exact (H Hu).
Defined.

(** *** [urlQuery] *)

Lemma for_in_null (v : value) :
  v = VNull \/ v = VUndefined -> for_in v = [].
Proof. intros [-> | ->]; reflexivity. Qed.

Lemma append_loop (options : value) (names : list string)
  (acc : Web.URLSearchParams) :
  (names = [] \/ (options <> VNull /\ options <> VUndefined)) ->
  forEach names
    (fun params name =>
       v <- get_prop options name ;; Normal (Web.append params name v))
    acc
  = Normal (acc ++
            map (fun name => (name, ToString (own options name))) names)%list.
Proof.
  intros [-> | [Hn Hu]]; [simpl; now rewrite app_nil_r|].
  revert acc. induction names as [|name names IH]; intros acc; simpl.
  - now rewrite app_nil_r.
  - rewrite (get_prop_own _ _ Hn Hu). simpl. rewrite IH.
    unfold Web.append. now rewrite <- app_assoc.
Qed.

Lemma append_loop_all (options : value) :
  forEach (for_in options)
    (fun params name =>
       v <- get_prop options name ;; Normal (Web.append params name v))
    ([] : Web.URLSearchParams)
  = Normal (map (fun name => (name, ToString (own options name)))
              (for_in options)).
Proof.
  rewrite append_loop; [reflexivity|].
  destruct options; try (right; split; discriminate); left; reflexivity.
Qed.

Lemma all_read (read : string -> value) (o : object) :
  (forall k v, In (k, v) o -> read k = v) ->
  map (fun name => (name, ToString (read name))) (keys o) =
  map (fun p => (fst p, ToString (snd p))) o.
Proof.
  induction o as [|[k v] o IH]; intros H; simpl; auto.
  rewrite (H k v) by now left.
  f_equal. apply IH. intros k' v' Hin. apply H. now right.
Qed.

Lemma all_entries (o : object) :
  NoDup (keys o) ->
  map (fun name => (name, ToString (own (VObj o) name))) (keys o) =
  map (fun p => (fst p, ToString (snd p))) o.
Proof.
  intros Hnd. apply (all_read (own (VObj o))).
  intros k v Hin. now apply get_In.
Qed.

(** [urlQuery] never throws and gives the empty string or a string that
    starts with [?].  For an object it serialises every entry in order, a
    [null] value as the text [null] (where [configure] leaves such entries
    out); a text is put behind the [?] as it is, not encoded; anything else
    gives the empty string. *)
Theorem urlQuery_cases (isObject isText : value -> bool) (options : value) :
  (exists s,
     RestUtils.urlQuery isObject isText options = Normal (VStr s) /\
     (s = "" \/ exists rest, s = String "?" rest)) /\
  (forall entries,
     options = VObj entries -> NoDup (keys entries) ->
     isObject options = true ->
     RestUtils.urlQuery isObject isText options =
     Normal (VStr ("?" ++
                   join "&"
                     (map (fun p => Web.urlencode (fst p) ++ "=" ++
                                    Web.urlencode (ToString (snd p)))
                        entries)))) /\
  (isObject options = false -> isText options = true ->
   RestUtils.urlQuery isObject isText options =
   Normal (VStr ("?" ++ ToString options))) /\
  (isObject options = false -> isText options = false ->
   RestUtils.urlQuery isObject isText options = Normal (VStr "")).
Proof.
  unfold RestUtils.urlQuery. rewrite append_loop_all. cbn [bind].
  split; [|split; [|split]].
  - destruct (isObject options); [|destruct (isText options)];
      eexists; (split; [reflexivity|]);
      solve [left; reflexivity | right; eexists; reflexivity].
  - intros entries -> Hnd ->. unfold for_in. cbn [props_of].
    now rewrite (all_entries _ Hnd), toString_pairs.
  - now intros -> ->.
  - now intros -> ->.
Qed.

Lemma urlQuery_cases_witness :
  let isObject := fun v => typeof_is v "object" && negb (is_null v) in
  let isText := fun v => typeof_is v "string" in
  let entries :=
    [("size", VNum (Int 10)); ("tags", VNull); ("n", VNum (Int (10 ^ 21)))] in
  NoDup (keys entries) /\
  isObject (VObj entries) = true /\
  RestUtils.urlQuery isObject isText (VObj entries) =
    Normal (VStr "?size=10&tags=null&n=1e%2B21") /\
  RestUtils.urlQuery isObject isText (VStr "a b&c") =
    Normal (VStr "?a b&c") /\
  RestUtils.urlQuery isObject isText VNull = Normal (VStr "").
Proof.
  intros isObject isText entries.
  assert (Hnd : NoDup (keys entries)).
  { repeat constructor; simpl; intuition discriminate. }
  split; [exact Hnd|]. split; [reflexivity|].
  assert (Hobj :
    RestUtils.urlQuery isObject isText (VObj entries) =
    Normal (VStr "?size=10&tags=null&n=1e%2B21")).
  { destruct (urlQuery_cases isObject isText (VObj entries))
      as (_ & Hobj & _ & _).
    rewrite (Hobj entries eq_refl Hnd eq_refl). vm_compute. reflexivity. }
  destruct (urlQuery_cases isObject isText (VStr "a b&c"))
    as (_ & _ & Htext & _).
  destruct (urlQuery_cases isObject isText VNull) as (_ & _ & _ & Hnone).
  split; [exact Hobj|].
  split; [exact (Htext eq_refl eq_refl) | exact (Hnone eq_refl eq_refl)].
Defined.

(** *** The connection test of the setup view *)

(** The request [attemptConnection] issues goes to the address of the
    setup model as it is, whatever host the store holds, with method [GET]
    and no body.  With a user name its [Authorization] header is the text
    [username:password] as typed, not encoded, and it replaces the store's;
    without one the store's authorization is sent.  The request never
    throws in [configure]. *)
Theorem attemptConnection_request (cfg : RestConfig)
  (protocol adminHost adminPort : value) (username : string)
  (password : value) :
  exists request,
    configure cfg
      (ClientSetup.attemptConnection_options protocol adminHost adminPort
         username password) = Normal request /\
    get request "url" =
      VStr (ToString protocol ++ "://" ++ ToString adminHost ++ ":" ++
            ToString adminPort) /\
    lookup request "method" = Some (VStr "GET") /\
    lookup request "data" = None /\
    header_of request "Authorization" =
      (if (1 <=? String.length username)%nat
       then Some (VStr (username ++ ":" ++ ToString password))
       else if typeof_is (authorization cfg) "string"
            then Some (authorization cfg) else None) /\
    get request "withCredentials" =
      VBool (typeof_is (authorization cfg) "string").
Proof.
  set (options := ClientSetup.attemptConnection_options protocol adminHost
                    adminPort username password).
  assert (Hn : get options "headers" <> VNull).
  { subst options. unfold ClientSetup.attemptConnection_options.
    destruct (1 <=? String.length username)%nat; cbn; discriminate. }
  exists (descriptor cfg options).
  split; [now apply configure_descriptor|].
  rewrite descriptor_url, descriptor_credentials, header_of_descriptor.
  assert (Hu : final_url cfg options =
               VStr (ToString protocol ++ "://" ++ ToString adminHost ++
                     ":" ++ ToString adminPort)).
  { subst options. unfold ClientSetup.attemptConnection_options.
    destruct (1 <=? String.length username)%nat; reflexivity. }
  assert (Hm : lookup (descriptor cfg options) "method" = Some (VStr "GET")).
  { subst options. unfold ClientSetup.attemptConnection_options.
    destruct (1 <=? String.length username)%nat; reflexivity. }
  assert (Hd : lookup (descriptor cfg options) "data" = None).
  { subst options.
    unfold ClientSetup.attemptConnection_options, descriptor.
    destruct (1 <=? String.length username)%nat;
      destruct (merged_headers _ _); reflexivity. }
  repeat split; auto.
  subst options. unfold ClientSetup.attemptConnection_options.
  destruct (1 <=? String.length username)%nat; reflexivity.
Qed.

End RestExtra.

(** ** More on the view frame *)

Module FrameExtra.

Import ViewFrame CoreUtils FrameFacts Vocabulary.

Local Open Scope Z_scope.

(** *** What a call leaves alone *)

Lemma loaderTimeoutCallback_rest (w : World) :
  let fs := frame (loaderTimeoutCallback w) in
  sessionTheme fs = sessionTheme (frame w) /\
  frameTitle fs = frameTitle (frame w) /\
  routeNext fs = routeNext (frame w) /\
  breadcrumbs fs = breadcrumbs (frame w) /\
  serverHost fs = serverHost (frame w) /\
  actionButtons fs = actionButtons (frame w).
Proof.
  unfold loaderTimeoutCallback, clearTimeout. cbn.
  destruct (loaderTimeout (cache w)); repeat split.
Qed.

Lemma fire_due_rest (fuel : nat) (w : World) :
  let fs := frame (fire_due fuel w) in
  sessionTheme fs = sessionTheme (frame w) /\
  frameTitle fs = frameTitle (frame w) /\
  routeNext fs = routeNext (frame w) /\
  breadcrumbs fs = breadcrumbs (frame w) /\
  serverHost fs = serverHost (frame w) /\
  actionButtons fs = actionButtons (frame w).
Proof.
  revert w. induction fuel as [|fuel IH]; intros w; [repeat split|].
  cbn [fire_due]. unfold fire_next.
  destruct (find _ (timers w)) as [t|]; [|repeat split].
  specialize (IH (loaderTimeoutCallback
                    {| frame := frame w; cache := cache w;
                       timers := cancel (fst t) (timers w);
                       now := now w; nextHandle := nextHandle w |})).
  cbv zeta in IH. destruct IH as (H1 & H2 & H3 & H4 & H5 & H6).
  pose proof (loaderTimeoutCallback_rest
                {| frame := frame w; cache := cache w;
                   timers := cancel (fst t) (timers w);
                   now := now w; nextHandle := nextHandle w |}) as P.
  cbv zeta in P. cbn [frame] in P. destruct P as (P1 & P2 & P3 & P4 & P5 & P6).
  cbv zeta. repeat split; congruence.
Qed.

Lemma elapse_rest (d : N) (w : World) :
  let fs := frame (elapse d w) in
  sessionTheme fs = sessionTheme (frame w) /\
  frameTitle fs = frameTitle (frame w) /\
  routeNext fs = routeNext (frame w) /\
  breadcrumbs fs = breadcrumbs (frame w) /\
  serverHost fs = serverHost (frame w) /\
  actionButtons fs = actionButtons (frame w).
Proof.
  unfold elapse.
  exact (fire_due_rest (List.length (timers w))
           {| frame := frame w; cache := cache w; timers := timers w;
              now := (now w + d)%N; nextHandle := nextHandle w |}).
Qed.

Lemma incrementLoader_rest (w : World) :
  let w' := incrementLoader w in
  sessionTheme (frame w') = sessionTheme (frame w) /\
  frameTitle (frame w') = frameTitle (frame w) /\
  routeNext (frame w') = routeNext (frame w) /\
  breadcrumbs (frame w') = breadcrumbs (frame w) /\
  serverHost (frame w') = serverHost (frame w) /\
  actionButtons (frame w') = actionButtons (frame w) /\
  now w' = now w.
Proof.
  unfold incrementLoader. cbn.
  destruct (_ && _); repeat split.
Qed.

Lemma setLoaderSteps_rest (n : Z) (w : World) :
  let w' := setLoaderSteps n w in
  sessionTheme (frame w') = sessionTheme (frame w) /\
  frameTitle (frame w') = frameTitle (frame w) /\
  routeNext (frame w') = routeNext (frame w) /\
  breadcrumbs (frame w') = breadcrumbs (frame w) /\
  serverHost (frame w') = serverHost (frame w) /\
  actionButtons (frame w') = actionButtons (frame w) /\
  cache w' = cache w /\ timers w' = timers w /\ now w' = now w.
Proof.
  unfold setLoaderSteps. destruct (_ && _)%bool; repeat split.
Qed.

Lemma previousRoute_rest (shouldPop : value) (w : World) :
  let w' := snd (previousRoute shouldPop w) in
  sessionTheme (frame w') = sessionTheme (frame w) /\
  frameTitle (frame w') = frameTitle (frame w) /\
  serverHost (frame w') = serverHost (frame w) /\
  actionButtons (frame w') = actionButtons (frame w).
Proof.
  unfold previousRoute.
  destruct (is_false _); [repeat split|].
  destruct (_ =? _)%nat; [repeat split|].
  cbn. destruct (get_prop _ _); repeat split.
Qed.

(** Every call of the factory, and time passing, keeps to its own part of
    the state: only [setSessionTheme] changes the theme and only [setTitle]
    the title; nothing changes [serverHost]; only [addAction] and
    [clearActions] change the action buttons; only the three breadcrumb
    calls change the stack and [routeNext]; only the loader calls and the
    timer change the loader; only [incrementLoader] and the timer change the
    timers and the held handle - [resetLoader] does not; a call takes no
    time. *)
Theorem calls_keep_to_their_fields (isEmpty : value -> bool) (w : World)
  (e : event) :
  let w' := perform isEmpty w e in
  match e with
  | SetSessionTheme _ => True
  | _ => sessionTheme (frame w') = sessionTheme (frame w)
  end /\
  match e with
  | SetTitle _ => True
  | _ => frameTitle (frame w') = frameTitle (frame w)
  end /\
  serverHost (frame w') = serverHost (frame w) /\
  match e with
  | AddAction _ _ _ _ _ | ClearActions => True
  | _ => actionButtons (frame w') = actionButtons (frame w)
  end /\
  match e with
  | AddBreadcrumb _ _ | ClearBreadcrumbs | PreviousRoute _ => True
  | _ => breadcrumbs (frame w') = breadcrumbs (frame w) /\
         routeNext (frame w') = routeNext (frame w)
  end /\
  match e with
  | SetLoaderSteps _ | IncrementLoader | ResetLoader | Elapse _ => True
  | _ => loaderWidth (frame w') = loaderWidth (frame w) /\
         loaderStep (frame w') = loaderStep (frame w) /\
         loaderUnit (frame w') = loaderUnit (frame w)
  end /\
  match e with
  | IncrementLoader | Elapse _ => True
  | _ => cache w' = cache w /\ timers w' = timers w
  end /\
  match e with
  | Elapse _ => True
  | _ => now w' = now w
  end.
Proof.
  destruct e; cbn [perform]; cbv zeta;
    try (repeat split; fail).
  - pose proof (previousRoute_rest shouldPop w) as R.
    pose proof (previousRoute_loader shouldPop w) as L.
    cbv zeta in R, L. intuition.
  - pose proof (setLoaderSteps_rest steps w) as R. cbv zeta in R. intuition.
  - pose proof (incrementLoader_rest w) as R. cbv zeta in R. intuition.
  - pose proof (elapse_rest d w) as R. cbv zeta in R. intuition.
Qed.

(** *** Going back *)

Lemma Forall_removelast {A : Type} (P : A -> Prop) (l : list A) :
  Forall P l -> Forall P (removelast l).
Proof.
  induction l as [|a l IH]; intros H; [constructor|].
  inversion H as [|? ? Ha Hl]; subst. destruct l as [|b l]; [constructor|].
  change (removelast (a :: b :: l)) with (a :: removelast (b :: l)).
  constructor; auto.
Qed.

Lemma perform_breadcrumbs (isEmpty : value -> bool) (w : World) (e : event) :
  match e with
  | AddBreadcrumb _ _ | ClearBreadcrumbs | PreviousRoute _ => True
  | _ => breadcrumbs (frame (perform isEmpty w e)) = breadcrumbs (frame w)
  end.
Proof.
  destruct e; cbn [perform]; try reflexivity; try exact I.
  - apply (setLoaderSteps_rest steps w).
  - apply (incrementLoader_rest w).
  - apply (elapse_rest d w).
Qed.

Lemma entries_perform (isEmpty : value -> bool) (w : World) (e : event) :
  Forall is_entry (breadcrumbs (frame w)) ->
  Forall is_entry (breadcrumbs (frame (perform isEmpty w e))).
Proof.
  intros H.
  pose proof (perform_breadcrumbs isEmpty w e) as K.
  destruct e; cbn [perform] in *; try (now rewrite K).
  - unfold addBreadcrumb. cbn. apply Forall_app. split; [exact H|].
    constructor; [|constructor]. eexists _, _. reflexivity.
  - constructor.
  - unfold previousRoute.
    destruct (is_false _); [exact H|].
    destruct (_ =? _)%nat; [exact H|].
    cbn. destruct (get_prop _ _); cbn;
      now apply Forall_removelast, Forall_removelast.
Qed.

Lemma entries_run (isEmpty : value -> bool) (events : list event)
  (w : World) :
  Forall is_entry (breadcrumbs (frame w)) ->
  Forall is_entry (breadcrumbs (frame (run isEmpty events w))).
Proof.
  revert w. induction events as [|e events IH]; intros w H; [exact H|].
  apply IH. now apply entries_perform.
Qed.

Lemma two_on_top {A : Type} (l : list A) :
  (2 <= List.length l)%nat -> exists below a b, l = (below ++ [a; b])%list.
Proof.
  intros H. destruct (exists_last (l := l)) as [l1 [b ->]].
  { intros ->. cbn in H. lia. }
  destruct (exists_last (l := l1)) as [below [a ->]].
  { intros ->. cbn in H. lia. }
  exists below, a, b. now rewrite <- app_assoc.
Qed.

Lemma pop_two (below : list value) (a b : value) :
  pop (below ++ [a; b]) = (b, (below ++ [a])%list) /\
  pop (below ++ [a]) = (a, below).
Proof.
  unfold pop.
  replace (below ++ [a; b])%list with ((below ++ [a]) ++ [b])%list
    by now rewrite <- app_assoc.
  now rewrite !last_last, !removelast_last.
Qed.

(** [previousRoute] on a stack of two entries or more, for an argument
    other than [false]. *)
Lemma previousRoute_two (shouldPop : value) (w : World)
  (below : list value) (entry top : value) (redirect : value) :
  is_false (default shouldPop (VBool true)) = false ->
  breadcrumbs (frame w) = (below ++ [entry; top])%list ->
  get_prop entry "redirect" = Normal redirect ->
  previousRoute shouldPop w =
  (Normal redirect,
   with_frame w (with_routeNext (with_breadcrumbs (frame w) below) redirect)).
Proof.
  intros Hp Hs Hr. unfold previousRoute. rewrite Hp, Hs.
  rewrite length_app. cbn [List.length].
  replace (List.length below + 2 =? 0)%nat with false
    by (symmetry; apply Nat.eqb_neq; lia).
  destruct (pop_two below entry top) as [-> P2].
  cbn [frame with_frame with_breadcrumbs breadcrumbs].
  rewrite P2, Hr. reflexivity.
Qed.

(** In every run of the factory the entries of the stack are those
    [addBreadcrumb] pushed, and [previousRoute], called to go back (with
    any argument but [false]), throws exactly when the stack holds one
    entry - although [hasBreadcrumbs] is true then.  On an empty stack it
    returns the empty string; on two entries or more it returns the redirect
    of the entry under the top, takes both entries off and keeps that
    redirect in [routeNext]; called with [false] it returns [routeNext] and
    changes nothing. *)
Theorem previousRoute_on_runs (isEmpty : value -> bool)
  (events : list event) (shouldPop : value) :
  let w := run isEmpty events start in
  let stack := breadcrumbs (frame w) in
  is_false (default shouldPop (VBool true)) = false ->
  Forall is_entry stack /\
  ((exists e, fst (previousRoute shouldPop w) = Throw e) <->
   List.length stack = 1%nat) /\
  (List.length stack = 1%nat ->
   hasBreadcrumbs w = true /\
   breadcrumbs (frame (snd (previousRoute shouldPop w))) = []) /\
  (stack = [] ->
   previousRoute shouldPop w =
   (Normal (VStr ""), with_frame w (with_routeNext (frame w) (VStr "")))) /\
  (forall below redirect displayText top,
     stack = (below ++ [VObj [("redirect", redirect);
                              ("displayText", displayText)]; top])%list ->
     previousRoute shouldPop w =
     (Normal redirect,
      with_frame w
        (with_routeNext (with_breadcrumbs (frame w) below) redirect))) /\
  previousRoute (VBool false) w = (Normal (routeNext (frame w)), w).
Proof.
  intros w stack Hp. subst stack.
  assert (Hall : Forall is_entry (breadcrumbs (frame w)))
    by (apply entries_run; constructor).
  assert (Hp' : is_false shouldPop = false)
    by (destruct shouldPop as [| |[|]| | | |]; auto).
  assert (Hone : forall entry, breadcrumbs (frame w) = [entry] ->
            previousRoute shouldPop w =
            (Throw (TypeError "Cannot read properties of undefined or null"),
             with_frame w (with_breadcrumbs (frame w) []))).
  { intros entry Hs. unfold previousRoute. rewrite Hp, Hs. reflexivity. }
  assert (Hmore : (2 <= List.length (breadcrumbs (frame w)))%nat ->
            exists v, fst (previousRoute shouldPop w) = Normal v).
  { intros Hlen. destruct (two_on_top _ Hlen) as (below & x & y & Hxy).
    assert (Hx : is_entry x).
    { rewrite Hxy in Hall. apply Forall_app in Hall.
      destruct Hall as [_ Hall]. now inversion Hall. }
    destruct Hx as (r & dt & ->).
    rewrite (previousRoute_two shouldPop w below _ y r Hp Hxy eq_refl).
    now exists r. }
  split; [exact Hall|].
  split; [|split; [|split; [|split]]].
  - split.
    + intros [e He].
      destruct (breadcrumbs (frame w)) as [|a [|b stack']] eqn:Hs;
        [| reflexivity |].
      * rewrite (previousRoute_empty shouldPop w Hp' Hs) in He.
        discriminate.
      * destruct Hmore as [v Hv]; [cbn; lia|]. congruence.
    + intros Hlen.
      destruct (breadcrumbs (frame w)) as [|a [|b stack']] eqn:Hs;
        try discriminate.
      rewrite (Hone a eq_refl). eexists. reflexivity.
  - intros Hlen. unfold hasBreadcrumbs.
    destruct (breadcrumbs (frame w)) as [|a [|b stack']] eqn:Hs;
      try discriminate.
    rewrite (Hone a eq_refl). split; reflexivity.
  - intros Hs. exact (previousRoute_empty shouldPop w Hp' Hs).
  - intros below redirect displayText top Hs.
    exact (previousRoute_two shouldPop w below _ top redirect Hp Hs eq_refl).
  - reflexivity.
Qed.

Lemma previousRoute_on_runs_witness :
  let isEmpty := fun v : value => is_null v in
  let events :=
    [AddBreadcrumb (VStr "/a") (VStr "A");
     AddBreadcrumb (VStr "/b") VUndefined;
     AddBreadcrumb (VStr "/c") (VStr "C")] in
  let w := run isEmpty events start in
  is_false (default VUndefined (VBool true)) = false /\
  fst (previousRoute VUndefined w) = Normal (VStr "/b") /\
  List.length (breadcrumbs (frame (snd (previousRoute VUndefined w)))) =
    1%nat /\
  exists e,
    fst (previousRoute VUndefined (snd (previousRoute VUndefined w))) = Throw e.
Proof.
  intros isEmpty events w.
  assert (Hp : is_false (default VUndefined (VBool true)) = false)
    by reflexivity.
  split; [exact Hp|].
  destruct (previousRoute_on_runs isEmpty events VUndefined Hp)
    as (_ & _ & _ & _ & Htwo & _).
  fold w in Htwo.
  rewrite (Htwo [VObj [("redirect", VStr "/a"); ("displayText", VStr "A")]]
             (VStr "/b") (VStr "/b")
             (VObj [("redirect", VStr "/c"); ("displayText", VStr "C")])
             eq_refl).
  split; [reflexivity|]. split; [reflexivity|].
  destruct (previousRoute_on_runs isEmpty
              (events ++ [PreviousRoute VUndefined]) VUndefined Hp)
    as (_ & Hthrow & _).
  apply Hthrow. reflexivity.
Defined.

(** Going back right after a view has pushed its entry: the call returns
    the redirect of the entry that was on top before, and takes that entry
    off together with the new one (the view returned to pushes its own
    again).  When the stack was empty before, the call throws. *)
Theorem back_after_push (isEmpty : value -> bool) (w : World)
  (redirect displayText : value) :
  let pushed := addBreadcrumb isEmpty redirect displayText w in
  (forall below redirect0 displayText0,
     breadcrumbs (frame w) =
       (below ++ [VObj [("redirect", redirect0);
                        ("displayText", displayText0)]])%list ->
     previousRoute VUndefined pushed =
     (Normal redirect0,
      with_frame w
        (with_routeNext (with_breadcrumbs (frame w) below) redirect0))) /\
  (breadcrumbs (frame w) = [] ->
   previousRoute VUndefined pushed =
   (Throw (TypeError "Cannot read properties of undefined or null"),
    with_frame w
      (with_routeNext (with_breadcrumbs (frame w) []) (VStr "")))).
Proof.
  split.
  - intros below redirect0 displayText0 Hs.
    rewrite (previousRoute_two VUndefined _ below
               (VObj [("redirect", redirect0); ("displayText", displayText0)])
               (VObj [("redirect", redirect);
                      ("displayText",
                       if isEmpty (default displayText VNull)
                       then redirect else default displayText VNull)])
               redirect0 eq_refl);
      [reflexivity | | reflexivity].
    unfold addBreadcrumb. cbn. rewrite Hs. now rewrite <- app_assoc.
  - intros Hs. unfold previousRoute, addBreadcrumb. cbn. rewrite Hs.
    reflexivity.
Qed.

Lemma back_after_push_witness :
  let isEmpty := fun v : value => is_null v in
  let w := addBreadcrumb isEmpty (VStr "/a") (VStr "A") start in
  breadcrumbs (frame w) =
    ([] ++ [VObj [("redirect", VStr "/a"); ("displayText", VStr "A")]])%list /\
  breadcrumbs (frame start) = [] /\
  fst (previousRoute VUndefined
         (addBreadcrumb isEmpty (VStr "/b") (VStr "B") w)) =
    Normal (VStr "/a") /\
  exists e, fst (previousRoute VUndefined w) = Throw e.
Proof.
  intros isEmpty w.
  assert (Hs : breadcrumbs (frame w) =
               ([] ++ [VObj [("redirect", VStr "/a");
                             ("displayText", VStr "A")]])%list)
    by reflexivity.
  assert (He : breadcrumbs (frame start) = []) by reflexivity.
  split; [exact Hs|]. split; [exact He|].
  destruct (back_after_push isEmpty w (VStr "/b") (VStr "B")) as [Hback _].
  destruct (back_after_push isEmpty start (VStr "/a") (VStr "A"))
    as [_ Hthrow].
  rewrite (Hback _ _ _ Hs). split; [reflexivity|].
  fold w in Hthrow. rewrite (Hthrow He). eexists. reflexivity.
Defined.

(** *** The loader *)

Lemma setLoaderSteps_loading (w : World) (n : Z) :
  loaderWidth (frame w) = 0 -> 1 <= n ->
  setLoaderSteps n w =
    with_frame w
      (with_loaderUnit
         (with_loaderWidth
            (with_loaderStep (frame w) (ceil_div 100 n)) 1) (VStr "1vw")) /\
  timers (setLoaderSteps n w) = timers w.
Proof.
  intros Hw Hn. unfold setLoaderSteps.
  rewrite Hw. apply Z.leb_le in Hn. rewrite Hn. split; reflexivity.
Qed.

Lemma incrementLoader_width (w : World) :
  loaderWidth (frame (incrementLoader w)) =
    Z.min (loaderWidth (frame w) + loaderStep (frame w)) 100 /\
  loaderStep (frame (incrementLoader w)) = loaderStep (frame w) /\
  (100 <= loaderWidth (frame (incrementLoader w)) ->
   loaderTimeout (cache (incrementLoader w)) <> None).
Proof.
  unfold incrementLoader. cbn.
  destruct (Z.leb_spec 100
              (Z.min (loaderWidth (frame w) + loaderStep (frame w)) 100));
    destruct (loaderTimeout (cache w)) eqn:Hc; cbn; rewrite ?Hc;
    repeat split; try discriminate; lia.
Qed.

(** After [setLoaderSteps(n)] on an idle loader, with [n] at least 1, the
    width after [k] calls of [incrementLoader] is 1 + k * ceil(100/n),
    capped at 100: it is 100 from the [n]-th call on, and a reset timer is
    held from then on. *)
Theorem loader_progress (w : World) (n : Z) (k : nat) :
  loaderWidth (frame w) = 0 -> 1 <= n ->
  let w' := Nat.iter k incrementLoader (setLoaderSteps n w) in
  loaderWidth (frame w') = Z.min (1 + Z.of_nat k * ceil_div 100 n) 100 /\
  loaderStep (frame w') = ceil_div 100 n /\
  (n <= Z.of_nat k -> loaderWidth (frame w') = 100) /\
  (loaderWidth (frame w') = 100 -> loaderTimeout (cache w') <> None).
Proof.
  intros Hidle Hn.
  pose proof (ceil_div_spec 100 n ltac:(lia)) as Hc.
  assert (Hs : 1 <= ceil_div 100 n) by nia.
  assert (Hstart : loaderWidth (frame (setLoaderSteps n w)) = 1 /\
                   loaderStep (frame (setLoaderSteps n w)) = ceil_div 100 n).
  { destruct (setLoaderSteps_loading w n Hidle Hn) as [-> _].
    split; reflexivity. }
  assert (Hk : forall i,
    loaderWidth (frame (Nat.iter i incrementLoader (setLoaderSteps n w))) =
      Z.min (1 + Z.of_nat i * ceil_div 100 n) 100 /\
    loaderStep (frame (Nat.iter i incrementLoader (setLoaderSteps n w))) =
      ceil_div 100 n).
  { intros i. induction i as [|j [IHw IHs]].
    - change (Nat.iter 0 incrementLoader (setLoaderSteps n w))
        with (setLoaderSteps n w).
      destruct Hstart as [-> ->]. split; lia.
    - rewrite Nat.iter_succ.
      destruct (incrementLoader_width
                  (Nat.iter j incrementLoader (setLoaderSteps n w)))
        as (-> & -> & _).
      rewrite IHw, IHs. split; lia. }
  cbv zeta. destruct (Hk k) as [Hw Hst].
  split; [exact Hw|]. split; [exact Hst|]. split.
  - intros Hkn. rewrite Hw. nia.
  - intros Hfull. destruct k as [|j].
    + change (Nat.iter 0 incrementLoader (setLoaderSteps n w))
        with (setLoaderSteps n w) in Hfull.
      destruct Hstart as [H1 _]. lia.
    + rewrite Nat.iter_succ in *.
      apply (incrementLoader_width
               (Nat.iter j incrementLoader (setLoaderSteps n w))). lia.
Qed.

Lemma loader_progress_witness :
  loaderWidth (frame start) = 0 /\ 1 <= 3 /\ 3 <= Z.of_nat 3 /\
  loaderWidth (frame (Nat.iter 2 incrementLoader (setLoaderSteps 3 start)))
  = 69 /\
  loaderWidth (frame (Nat.iter 3 incrementLoader (setLoaderSteps 3 start)))
  = 100 /\
  loaderTimeout (cache (Nat.iter 3 incrementLoader (setLoaderSteps 3 start)))
  <> None.
Proof.
  assert (H0 : loaderWidth (frame start) = 0) by reflexivity.
  assert (H1 : 1 <= 3) by lia.
  assert (H3 : 3 <= Z.of_nat 3) by (simpl; lia).
  destruct (loader_progress start 3 2 H0 H1) as (Hw2 & _).
  destruct (loader_progress start 3 3 H0 H1) as (_ & _ & Hfull & Hheld).
  split; [exact H0|]. split; [exact H1|]. split; [exact H3|].
  split; [rewrite Hw2; reflexivity|].
  split; [exact (Hfull H3) | exact (Hheld (Hfull H3))].
Defined.

(** [resetLoader] leaves the reset timer pending and held.  While the
    loader is reset [incrementLoader] changes nothing, the step being 0.  A
    cycle that [setLoaderSteps] starts before the old timer is due is cut
    short by it: once the timer has run, width and step are 0 again though
    the cycle never reached 100, and [incrementLoader] is without effect
    until [setLoaderSteps] is called again. *)
Theorem resetLoader_keeps_timer (w : World) (h : handle) (n : Z) (d : N) :
  loader_inv w -> loaderTimeout (cache w) = Some h -> 1 <= n ->
  let idle := resetLoader w in
  let loading := setLoaderSteps n idle in
  incrementLoader idle = idle /\
  exists due,
    timers w = [(h, due)] /\
    timers loading = [(h, due)] /\
    loaderTimeout (cache loading) = Some h /\
    loaderWidth (frame loading) = 1 /\
    loaderStep (frame loading) = ceil_div 100 n /\
    ((due <= now w + d)%N ->
     loaderWidth (frame (elapse d loading)) = 0 /\
     loaderStep (frame (elapse d loading)) = 0 /\
     incrementLoader (elapse d loading) = elapse d loading).
Proof.
  intros (_ & _ & _ & Ht) Hc Hn idle loading.
  rewrite Hc in Ht. destruct Ht as [due [Htm _]].
  split; [reflexivity|]. exists due.
  assert (Hidle : loaderWidth (frame idle) = 0) by reflexivity.
  destruct (setLoaderSteps_loading idle n Hidle Hn) as [Hl Htl].
  fold loading in Hl, Htl.
  assert (Htimers : timers loading = [(h, due)]) by (rewrite Htl; exact Htm).
  split; [exact Htm|]. split; [exact Htimers|].
  rewrite Hl. split; [exact Hc|]. split; [reflexivity|].
  split; [reflexivity|].
  intros Hdue. rewrite <- Hl.
  rewrite (elapse_due d loading h due Htimers)
    by (rewrite Hl; exact Hdue).
  repeat split.
Qed.

Lemma resetLoader_keeps_timer_witness :
  let w := Nat.iter 2 incrementLoader (setLoaderSteps 2 start) in
  loader_inv w /\ loaderTimeout (cache w) = Some 1%nat /\ 1 <= 4 /\
  loaderWidth (frame (setLoaderSteps 4 (resetLoader w))) = 1 /\
  loaderWidth (frame (elapse 500 (setLoaderSteps 4 (resetLoader w)))) = 0.
Proof.
  intros w.
  assert (Hinv : loader_inv w).
  { apply (loader_inv_run (fun _ => false)
             [SetLoaderSteps 2; IncrementLoader; IncrementLoader] start).
    apply loader_inv_start. }
  assert (Hc : loaderTimeout (cache w) = Some 1%nat) by reflexivity.
  assert (Hn : 1 <= 4) by lia.
  destruct (resetLoader_keeps_timer w 1%nat 4 500 Hinv Hc Hn)
    as (_ & due & Htm & _ & _ & Hw & _ & Hcut).
  split; [exact Hinv|]. split; [exact Hc|]. split; [exact Hn|].
  split; [exact Hw|].
  apply Hcut. assert (E : timers w = [(1%nat, 500%N)]) by reflexivity.
  rewrite Htm in E. injection E as ->. reflexivity.
Defined.

(** In every run of the factory at most one timer is pending, and it is
    the one whose handle the module holds: the queue is empty exactly when
    no handle is held, a pending timer is due within 500 units, and one is
    pending whenever the width is 100. *)
Theorem single_reset_timer (isEmpty : value -> bool) (events : list event) :
  let w := run isEmpty events start in
  (List.length (timers w) <= 1)%nat /\
  (timers w = [] <-> loaderTimeout (cache w) = None) /\
  (forall h due,
     In (h, due) (timers w) ->
     loaderTimeout (cache w) = Some h /\ (due <= now w + 500)%N) /\
  (loaderWidth (frame w) = 100 -> timers w <> []).
Proof.
  intros w.
  assert (Hinv : loader_inv w) by apply loader_inv_run, loader_inv_start.
  destruct Hinv as (_ & _ & _ & Ht).
  destruct (loaderTimeout (cache w)) as [h|].
  - destruct Ht as [due [-> Hd]]. cbn. repeat split; try lia.
    + discriminate.
    + discriminate.
    + destruct H as [E | []]. congruence.
    + destruct H as [E | []]. injection E as <- <-. exact Hd.
    + discriminate.
  - destruct Ht as [-> Hw]. cbn. repeat split; try lia; try contradiction.
Qed.

Lemma single_reset_timer_witness :
  let isEmpty := fun v : value => is_null v in
  let events := [SetLoaderSteps 1; IncrementLoader; ResetLoader] in
  let w := run isEmpty events start in
  loaderWidth (frame w) = 0 /\
  In (1%nat, 500%N) (timers w) /\
  loaderTimeout (cache w) = Some 1%nat /\
  timers w <> [].
Proof.
  intros isEmpty events w.
  assert (Hin : In (1%nat, 500%N) (timers w)) by (left; reflexivity).
  destruct (single_reset_timer isEmpty events) as (_ & Hiff & Hheld & _).
  fold w in Hiff, Hheld.
  destruct (Hheld _ _ Hin) as [Hc _].
  split; [reflexivity|]. split; [exact Hin|]. split; [exact Hc|].
  intros He. apply Hiff in He. rewrite Hc in He. discriminate.
Defined.


(** *** The consumer list view *)

(** Constructing [ConsumerListController] leaves exactly one entry on the
    stack, whatever was there, with an empty [routeNext] and the title
    [Consumers], and adds one button with the default styles behind those
    already listed (it does not clear them).  Going back from this view
    throws.  On an idle loader the fetch it starts takes the width to 51,
    and to 100 with a reset timer held when the request has completed; on a
    loader that is busy it only adds the step of the cycle under way. *)
Theorem ConsumerListController_frame (isEmpty : value -> bool) (w : World) :
  let w' := ConsumerList.ConsumerListController isEmpty w in
  let done := ConsumerList.fetchConsumerList_finally w' in
  List.length (breadcrumbs (frame w')) = 1%nat /\
  hasBreadcrumbs w' = true /\
  routeNext (frame w') = VStr "" /\
  frameTitle (frame w') = VStr "Consumers" /\
  actionButtons (frame w') =
    (actionButtons (frame w) ++
     [VObj [("styles", VStr "btn success create");
            ("displayText", VStr "New Consumer");
            ("redirect", VStr "#!/consumers/__create__");
            ("target", VStr "object");
            ("endpoint", VStr "!#/")]])%list /\
  (exists e, fst (previousRoute (VBool true) w') = Throw e) /\
  (loaderWidth (frame w) = 0 ->
   loaderWidth (frame w') = 51 /\
   loaderWidth (frame done) = 100 /\
   loaderTimeout (cache done) <> None) /\
  (loaderWidth (frame w) <> 0 ->
   loaderStep (frame w') = loaderStep (frame w) /\
   loaderWidth (frame w') =
     Z.min (loaderWidth (frame w) + loaderStep (frame w)) 100).
Proof.
  cbv zeta.
  unfold ConsumerList.ConsumerListController,
    ConsumerList.fetchConsumerList_issued,
    ConsumerList.fetchConsumerList_finally.
  set (viewed :=
         addAction (VStr "New Consumer") (VStr "#!/consumers/__create__")
           VUndefined VUndefined VUndefined
           (setTitle (VStr "Consumers")
              (addBreadcrumb isEmpty (VStr "#!/consumers") (VStr "Consumers")
                 (clearBreadcrumbs w)))).
  assert (Hw : loaderWidth (frame viewed) = loaderWidth (frame w))
    by reflexivity.
  assert (Hs : loaderStep (frame viewed) = loaderStep (frame w))
    by reflexivity.
  pose proof (incrementLoader_rest (setLoaderSteps 2 viewed)) as R.
  pose proof (setLoaderSteps_rest 2 viewed) as S.
  cbv zeta in R, S.
  destruct R as (_ & R2 & R3 & R4 & _ & R6 & _).
  destruct S as (_ & S2 & S3 & S4 & _ & S6 & _).
  assert (Hstack : breadcrumbs (frame (incrementLoader
                                         (setLoaderSteps 2 viewed))) =
                   [VObj [("redirect", VStr "#!/consumers");
                          ("displayText",
                           if isEmpty (VStr "Consumers")
                           then VStr "#!/consumers" else VStr "Consumers")]])
    by (rewrite R4, S4; reflexivity).
  split; [now rewrite Hstack|].
  split; [unfold hasBreadcrumbs; now rewrite Hstack|].
  split; [rewrite R3, S3; reflexivity|].
  split; [rewrite R2, S2; reflexivity|].
  split; [rewrite R6, S6; reflexivity|].
  split.
  { unfold previousRoute. cbn [default is_false]. rewrite Hstack.
    eexists. reflexivity. }
  split.
  - intros Hidle.
    assert (Hv : loaderWidth (frame viewed) = 0) by (rewrite Hw; exact Hidle).
    destruct (setLoaderSteps_loading viewed 2 Hv ltac:(lia)) as [Hl _].
    assert (W0 : loaderWidth (frame (setLoaderSteps 2 viewed)) = 1)
      by (rewrite Hl; reflexivity).
    assert (S0 : loaderStep (frame (setLoaderSteps 2 viewed)) = 50)
      by (rewrite Hl; reflexivity).
    destruct (incrementLoader_width (setLoaderSteps 2 viewed))
      as (W1 & S1 & _).
    destruct (incrementLoader_width
                (incrementLoader (setLoaderSteps 2 viewed)))
      as (W2 & _ & T2).
    rewrite W0, S0 in W1. rewrite S0 in S1. rewrite W1, S1 in W2.
    split; [exact W1|]. split; [exact W2|]. apply T2. rewrite W2. lia.
  - intros Hbusy.
    assert (Hsame : setLoaderSteps 2 viewed = viewed).
    { unfold setLoaderSteps. rewrite Hw.
      apply Z.eqb_neq in Hbusy. now rewrite Hbusy. }
    rewrite Hsame.
    destruct (incrementLoader_width viewed) as (W1 & S1 & _).
    rewrite W1, S1, Hw, Hs. split; reflexivity.
Qed.

Lemma ConsumerListController_frame_witness :
  let isEmpty := fun v : value => is_null v in
  let busy := incrementLoader (setLoaderSteps 4 start) in
  loaderWidth (frame start) = 0 /\
  loaderWidth (frame busy) <> 0 /\
  loaderWidth (frame (ConsumerList.ConsumerListController isEmpty start))
  = 51 /\
  loaderWidth (frame (ConsumerList.ConsumerListController isEmpty busy))
  = 51.
Proof.
  intros isEmpty busy.
  assert (H0 : loaderWidth (frame start) = 0) by reflexivity.
  assert (H1 : loaderWidth (frame busy) <> 0) by (simpl; discriminate).
  destruct (ConsumerListController_frame isEmpty start)
    as (_ & _ & _ & _ & _ & _ & Hidle & _).
  destruct (ConsumerListController_frame isEmpty busy)
    as (_ & _ & _ & _ & _ & _ & _ & Hbusy).
  destruct (Hidle H0) as (Hw & _). destruct (Hbusy H1) as (_ & Hb).
  split; [exact H0|]. split; [exact H1|]. split; [exact Hw|].
  rewrite Hb. reflexivity.
Defined.

(** *** The provider *)

(** The fields tell two states apart up to the integers the loader
    holds, which they show as numbers. *)
Lemma frame_ext (a b : FrameState) :
  (forall name, field a name = field b name) ->
  loaderWidth a = loaderWidth b -> loaderStep a = loaderStep b -> a = b.
Proof.
  intros H Hw Hs. destruct a, b.
  pose proof (H "sessionTheme") as H1. pose proof (H "frameTitle") as H2.
  pose proof (H "routeNext") as H3. pose proof (H "breadcrumbs") as H4.
  pose proof (H "serverHost") as H5. pose proof (H "actionButtons") as H6.
  pose proof (H "loaderUnit") as H9.
  cbn in H1, H2, H3, H4, H5, H6, H9, Hw, Hs. congruence.
Qed.

Lemma assign_loader (fs fs' : FrameState) (k : string) (v : value) :
  assign fs k v = Some fs' ->
  loaderWidth fs' =
    (if String.eqb k "loaderWidth" then held v else loaderWidth fs) /\
  loaderStep fs' =
    (if String.eqb k "loaderStep" then held v else loaderStep fs).
Proof.
  unfold assign, held.
  repeat match goal with
    | |- context [if String.eqb k ?b then _ else _] =>
        destruct (String.eqb_spec k b) as [->|]
    end;
    intros H; try discriminate H;
    try (injection H as <-; split; reflexivity);
    destruct v as [| |?|x|?|?|?]; try discriminate H;
    try (destruct (integer x) as [z|]; try discriminate H);
    injection H as <-; split; reflexivity.
Qed.

Lemma initialize_none (options : object) (names : list string) :
  fold_left (initialize_step options) names None = None.
Proof. induction names as [|k names IH]; [reflexivity | exact IH]. Qed.

Lemma loader_initialize_frame (options : object) (names : list string)
  (fs fs' : FrameState) :
  fold_left (initialize_step options) names (Some fs) = Some fs' ->
  loaderWidth fs' =
    (if existsb (String.eqb "loaderWidth") names
     then held (get options "loaderWidth") else loaderWidth fs) /\
  loaderStep fs' =
    (if existsb (String.eqb "loaderStep") names
     then held (get options "loaderStep") else loaderStep fs).
Proof.
  revert fs. induction names as [|k names IH]; intros fs.
  - intros H. injection H as <-. split; reflexivity.
  - cbn [fold_left initialize_step existsb].
    rewrite (String.eqb_sym "loaderWidth" k), (String.eqb_sym "loaderStep" k).
    destruct (isDefined (field fs k)) eqn:D; cbn [negb].
    + destruct (assign fs k (get options k)) as [fs1|] eqn:A;
        [|rewrite initialize_none; discriminate].
      intros H. destruct (IH _ H) as (Hw & Hs).
      destruct (assign_loader _ _ _ _ A) as (Aw & As).
      rewrite Hw, Hs, Aw, As.
      split;
        [destruct (String.eqb_spec k "loaderWidth") as [->|]
        |destruct (String.eqb_spec k "loaderStep") as [->|]];
        cbn [orb]; try reflexivity;
        match goal with
        | |- context [if ?c then _ else _] => destruct c
        end; reflexivity.
    + assert (Hw : String.eqb k "loaderWidth" = false).
      { now destruct (String.eqb_spec k "loaderWidth") as [->|]. }
      assert (Hs : String.eqb k "loaderStep" = false).
      { now destruct (String.eqb_spec k "loaderStep") as [->|]. }
      rewrite Hw, Hs. cbn [orb]. apply IH.
Qed.

(** [ViewFrameProvider.initialize] a second time with the same options
    changes nothing more.  (The options give arrays for the stacks and
    integers for the loader width and step.) *)
Theorem initialize_frame_idempotent (options : object) (fs fs' : FrameState) :
  (forall k, In k (keys options) -> fits k (get options k) = true) ->
  initialize options fs = Some fs' ->
  initialize options fs' = Some fs'.
Proof.
  intros Hfit Hi.
  destruct (field_initialize_frame options (keys options) fs Hfit)
    as (f1 & H1 & F1).
  destruct (field_initialize_frame options (keys options) fs' Hfit)
    as (f2 & H2 & F2).
  unfold initialize in *. rewrite Hi in H1. injection H1 as <-.
  destruct (loader_initialize_frame _ _ _ _ Hi) as (W1 & S1).
  destruct (loader_initialize_frame _ _ _ _ H2) as (W2 & S2).
  rewrite H2. f_equal. apply frame_ext.
  - intros name. rewrite F2, F1.
    destruct (existsb (String.eqb name) (keys options)); cbn [andb];
      [|reflexivity].
    destruct (isDefined (field fs name)) eqn:D; [|now rewrite D].
    now destruct (isDefined (get options name)).
  - rewrite W2, W1.
    now destruct (existsb (String.eqb "loaderWidth") (keys options)).
  - rewrite S2, S1.
    now destruct (existsb (String.eqb "loaderStep") (keys options)).
Qed.

Lemma initialize_frame_idempotent_witness :
  let options := [("frameTitle", VUndefined); ("loaderStep", VNum (Int 10))] in
  (forall k, In k (keys options) -> fits k (get options k) = true) /\
  exists fs',
    initialize options frameState = Some fs' /\
    initialize options fs' = Some fs' /\
    field fs' "frameTitle" = VUndefined.
Proof.
  intros options.
  assert (Hfit : forall k, In k (keys options) ->
                   fits k (get options k) = true).
  { intros k [<- | [<- | []]]; reflexivity. }
  split; [exact Hfit|].
  eexists. split; [reflexivity|]. split; [|reflexivity].
  apply (initialize_frame_idempotent options frameState _ Hfit).
  reflexivity.
Defined.

End FrameExtra.
